(** * azure-ai-proxy: the interception pipeline

    A shallow embedding of [internal/proxy/proxy.go] and
    [internal/logging/logger.go].  Go strings are byte sequences and are
    modelled by [string] (a list of 8-bit [ascii]); Go maps by stdpp's
    [gmap]; dynamically typed values ([interface{}]) by the inductive
    type [Value]. *)

From Stdlib Require Import Ascii String List ZArith Lia Bool.
From stdpp Require Import base option gmap strings.

Import ListNotations.
Local Open Scope string_scope.
Local Set Warnings "-register-all".

(** ** Go's [strings] package, on byte strings *)

Module strings.

(** [strings.HasPrefix(s, prefix)]. *)
Fixpoint HasPrefix (s prefix : string) : bool :=
  match prefix, s with
  | EmptyString, _ => true
  | String p prefix', String c s' => Ascii.eqb c p && HasPrefix s' prefix'
  | String _ _, EmptyString => false
  end.

Fixpoint drop (n : nat) (s : string) : string :=
  match n, s with
  | S n', String _ s' => drop n' s'
  | _, _ => s
  end.

(** [strings.TrimPrefix(s, prefix)]: [s] without the leading [prefix],
    or [s] itself when it does not start with it. *)
Definition TrimPrefix (s prefix : string) : string :=
  if HasPrefix s prefix then drop (String.length prefix) s else s.

(** [strings.Contains(s, substr)]: [substr] occurs at some offset. *)
Fixpoint Contains (s substr : string) : bool :=
  HasPrefix s substr ||
  match s with
  | EmptyString => false
  | String _ s' => Contains s' substr
  end.

(** [strings.Split(s, sep)] for a separator of one byte, as at its only
    call site ([sep = "\n"]): the pieces between the separators, always
    at least one. *)
Fixpoint Split (s : string) (sep : ascii) : list string :=
  match s with
  | EmptyString => [EmptyString]
  | String c s' =>
      if Ascii.eqb c sep then EmptyString :: Split s' sep
      else match Split s' sep with
           | piece :: rest => String c piece :: rest
           | [] => [String c EmptyString]
           end
  end.

End strings.

Definition newline : ascii := Ascii.ascii_of_nat 10.

(** ** Dynamically typed values

    What an [interface{}] holds in this program: the results of
    [json.Unmarshal] into an [interface{}] ([nil], [bool], [float64],
    [string], [[]interface{}], [map[string]interface{}]) and the
    [time.Time] stored in the request context.  A [float64] is kept as
    the literal it was decoded from. *)

Inductive Value : Type :=
| VNil
| VBool (b : bool)
| VNumber (literal : string)
| VString (s : string)
| VSlice (elems : list Value)
| VMap (m : gmap string Value)
| VTime (t : Z).

(** Type assertions [v.(T)] in their two-result form [x, ok := v.(T)]. *)
Definition as_string (v : option Value) : option string :=
  match v with Some (VString s) => Some s | _ => None end.

Definition as_map (v : option Value) : option (gmap string Value) :=
  match v with Some (VMap m) => Some m | _ => None end.

Definition as_slice (v : option Value) : option (list Value) :=
  match v with Some (VSlice l) => Some l | _ => None end.

(** ** The Stream Reconstructor: [processStreamingResponse] *)

Section StreamReconstructor.

(** [json.Unmarshal] into an [interface{}]: the decoded value, or [None]
    for the error result.  It belongs to Go's standard library and is
    taken as given. *)
Variable Unmarshal : string -> option Value.

(** [json.Unmarshal(data, &chunk)] with [chunk] a nil
    [map[string]interface{}]: an object fills the map, [null] leaves the
    nil map without an error, any other value is a type error. *)
Definition Unmarshal_map (data : string) : option (gmap string Value) :=
  match Unmarshal data with
  | Some (VMap m) => Some m
  | Some VNil => Some ∅
  | _ => None
  end.

(** The four nested [if ..., ok := ...; ok] blocks that follow a
    successful parse of a chunk (proxy.go, 202-217). *)
Definition extract_content (fullContent : string) (chunk : gmap string Value) : string :=
  match as_slice (chunk !! "choices") with
  | Some (first :: _) =>
      match as_map (Some first) with
      | Some choice =>
          let fullContent :=
            match as_map (choice !! "delta") with
            | Some delta =>
                match as_string (delta !! "content") with
                | Some content => fullContent ++ content
                | None => fullContent
                end
            | None => fullContent
            end in
          match as_map (choice !! "message") with
          | Some message =>
              match as_string (message !! "content") with
              | Some content => fullContent ++ content
              | None => fullContent
              end
          | None => fullContent
          end
      | None => fullContent
      end
  | _ => fullContent
  end.

(** One iteration of [for _, line := range lines]. *)
Definition loop_body (fullContent line : string) : string :=
  if strings.HasPrefix line "data: " then
    let data := strings.TrimPrefix line "data: " in
    if String.eqb data "[DONE]" then fullContent
    else match Unmarshal_map data with
         | None => fullContent
         | Some chunk => extract_content fullContent chunk
         end
  else fullContent.

Definition accumulate (lines : list string) (fullContent : string) : string :=
  fold_left loop_body lines fullContent.

(** The returned literal: one choice, one assistant message.  (In Go the
    slice is a [[]map[string]interface{}]; it serialises like a
    [[]interface{}].) *)
Definition reconstructed (fullContent : string) : Value :=
  VMap {[ "choices" :=
    VSlice [ VMap {[ "message" :=
      VMap (<[ "role" := VString "assistant" ]>
             {[ "content" := VString fullContent ]}) ]} ] ]}.

Definition processStreamingResponse (responseText : string) : Value :=
  let fullContent := "" in
  let lines := strings.Split responseText newline in
  reconstructed (accumulate lines fullContent).

End StreamReconstructor.

(** ** A decoder for JSON texts

    The grammar of RFC 8259 as [encoding/json] accepts it, decoding into
    [Value] the way [json.Unmarshal] fills an [interface{}]: an object
    becomes a map (a repeated key keeps its last value), an array a slice.
    Bytes of a string literal are kept as they are (Go additionally
    replaces invalid UTF-8 by U+FFFD), and the nesting limit of 10000
    levels is not modelled.  The general results below hold for any
    decoder; this one instantiates them on concrete texts. *)

Module json.

Local Open Scope char_scope.
Local Open Scope N_scope.

Definition is_space (c : ascii) : bool :=
  match c with
  | " " | "009" | "010" | "013" => true
  | _ => false
  end.

Fixpoint skip_space (s : string) : string :=
  match s with
  | String c s' => if is_space c then skip_space s' else s
  | EmptyString => s
  end.

Definition is_digit (c : ascii) : bool :=
  (48 <=? N_of_ascii c) && (N_of_ascii c <=? 57).

Fixpoint span_digits (s : string) : string * string :=
  match s with
  | String c s' =>
      if is_digit c then let (d, r) := span_digits s' in (String c d, r)
      else (EmptyString, s)
  | EmptyString => (EmptyString, s)
  end.

(** One or more digits. *)
Definition digits1 (s : string) : option (string * string) :=
  match span_digits s with
  | (EmptyString, _) => None
  | (d, r) => Some (d, r)
  end.

(** A number literal: an optional minus sign; a zero, or a non-zero
    digit and more digits; an optional fraction; an optional exponent. *)
Definition scan_number (s : string) : option (string * string) :=
  let (sign, s) := match s with
                   | String "-" r => ("-"%string, r)
                   | _ => (EmptyString, s)
                   end in
  match (match s with
         | String "0" r => Some ("0"%string, r)
         | _ => digits1 s
         end) with
  | None => None
  | Some (int, s) =>
      match (match s with
             | String "." r =>
                 match digits1 r with
                 | Some (d, r') => Some (String "." d, r')
                 | None => None
                 end
             | _ => Some (EmptyString, s)
             end) with
      | None => None
      | Some (frac, s) =>
          match s with
          | String e r =>
              if Ascii.eqb e "e" || Ascii.eqb e "E" then
                let (esign, r) := match r with
                                  | String "+" r' => ("+"%string, r')
                                  | String "-" r' => ("-"%string, r')
                                  | _ => (EmptyString, r)
                                  end in
                match digits1 r with
                | Some (d, r') =>
                    Some ((sign ++ int ++ frac ++ String e esign ++ d)%string, r')
                | None => None
                end
              else Some ((sign ++ int ++ frac)%string, s)
          | EmptyString => Some ((sign ++ int ++ frac)%string, s)
          end
      end
  end.

Definition hex_digit (c : ascii) : option N :=
  let n := N_of_ascii c in
  if (48 <=? n) && (n <=? 57) then Some (n - 48)
  else if (97 <=? n) && (n <=? 102) then Some (n - 87)
  else if (65 <=? n) && (n <=? 70) then Some (n - 55)
  else None.

(** [getu4]: the four hex digits that follow a backslash-u. *)
Definition getu4 (s : string) : option (N * string) :=
  match s with
  | String "\" (String "u" (String a (String b (String c (String d r))))) =>
      match hex_digit a, hex_digit b, hex_digit c, hex_digit d with
      | Some a, Some b, Some c, Some d => Some (((a * 16 + b) * 16 + c) * 16 + d, r)
      | _, _, _, _ => None
      end
  | _ => None
  end.

Definition byte (n : N) : string := String (ascii_of_N n) EmptyString.

(** [utf8.AppendRune]. *)
Definition utf8 (r : N) : string :=
  if r <? 128 then byte r
  else if r <? 2048 then (byte (192 + r / 64) ++ byte (128 + r mod 64))%string
  else if r <? 65536 then
    (byte (224 + r / 4096) ++ byte (128 + (r / 64) mod 64) ++ byte (128 + r mod 64))%string
  else
    (byte (240 + r / 262144) ++ byte (128 + (r / 4096) mod 64)
       ++ byte (128 + (r / 64) mod 64) ++ byte (128 + r mod 64))%string.

Definition replacement_char : N := 65533.

Definition is_surrogate (r : N) : bool := (55296 <=? r) && (r <? 57344).

(** [utf16.DecodeRune]. *)
Definition decode_surrogates (r1 r2 : N) : N :=
  if (55296 <=? r1) && (r1 <? 56320) && (56320 <=? r2) && (r2 <? 57344)
  then (r1 - 55296) * 1024 + (r2 - 56320) + 65536
  else replacement_char.

(** The body of a string literal, after its opening quote: the decoded
    bytes and the text after the closing quote. *)
Fixpoint scan_string (fuel : nat) (s : string) : option (string * string) :=
  match fuel with
  | O => None
  | S fuel =>
      match s with
      | EmptyString => None
      | String "034" r => Some (EmptyString, r)
      | String "\" (String "u" _) =>
          match getu4 s with
          | None => None
          | Some (r1, rest) =>
              let (rune, rest) :=
                if is_surrogate r1 then
                  match getu4 rest with
                  | Some (r2, rest') =>
                      if decode_surrogates r1 r2 =? replacement_char
                      then (replacement_char, rest)
                      else (decode_surrogates r1 r2, rest')
                  | None => (replacement_char, rest)
                  end
                else (r1, rest) in
              match scan_string fuel rest with
              | Some (t, r) => Some ((utf8 rune ++ t)%string, r)
              | None => None
              end
          end
      | String "\" (String e r) =>
          match (match e with
                 | "034" | "\" | "/" => Some e
                 | "b" => Some "008"
                 | "f" => Some "012"
                 | "n" => Some "010"
                 | "r" => Some "013"
                 | "t" => Some "009"
                 | _ => None
                 end) with
          | Some c =>
              match scan_string fuel r with
              | Some (t, r') => Some (String c t, r')
              | None => None
              end
          | None => None
          end
      | String "\" EmptyString => None
      | String c r =>
          if N_of_ascii c <? 32 then None
          else match scan_string fuel r with
               | Some (t, r') => Some (String c t, r')
               | None => None
               end
      end
  end.

Definition string_literal (s : string) : option (string * string) :=
  scan_string (S (String.length s)) s.

Definition starts_number (c : ascii) : bool := Ascii.eqb c "-" || is_digit c.

(** A value, the elements of an array after its first bracket or a
    comma, the members of an object after its first brace or a comma.
    Every call consumes a byte within two steps, so twice the length of
    the text is fuel enough. *)
Fixpoint value (fuel : nat) (s : string) : option (Value * string) :=
  match fuel with
  | O => None
  | S fuel =>
      match skip_space s with
      | String "{" r =>
          match skip_space r with
          | String "}" r' => Some (VMap ∅, r')
          | _ => members fuel ∅ r
          end
      | String "[" r =>
          match skip_space r with
          | String "]" r' => Some (VSlice [], r')
          | _ => elements fuel [] r
          end
      | String "034" r =>
          match string_literal r with
          | Some (t, r') => Some (VString t, r')
          | None => None
          end
      | String c r as s' =>
          if strings.HasPrefix s' "true" then Some (VBool true, strings.drop 4 s')
          else if strings.HasPrefix s' "false" then Some (VBool false, strings.drop 5 s')
          else if strings.HasPrefix s' "null" then Some (VNil, strings.drop 4 s')
          else if starts_number c then
            match scan_number s' with
            | Some (lit, r') => Some (VNumber lit, r')
            | None => None
            end
          else None
      | EmptyString => None
      end
  end
with elements (fuel : nat) (acc : list Value) (s : string) : option (Value * string) :=
  match fuel with
  | O => None
  | S fuel =>
      match value fuel s with
      | Some (v, r) =>
          match skip_space r with
          | String "," r' => elements fuel (acc ++ [v]) r'
          | String "]" r' => Some (VSlice (acc ++ [v]), r')
          | _ => None
          end
      | None => None
      end
  end
with members (fuel : nat) (m : gmap string Value) (s : string) : option (Value * string) :=
  match fuel with
  | O => None
  | S fuel =>
      match skip_space s with
      | String "034" r =>
          match string_literal r with
          | Some (key, r1) =>
              match skip_space r1 with
              | String ":" r2 =>
                  match value fuel r2 with
                  | Some (v, r3) =>
                      match skip_space r3 with
                      | String "," r4 => members fuel (<[key := v]> m) r4
                      | String "}" r4 => Some (VMap (<[key := v]> m), r4)
                      | _ => None
                      end
                  | None => None
                  end
              | _ => None
              end
          | None => None
          end
      | _ => None
      end
  end.

(** [json.Unmarshal(data, &v)] with [v] an [interface{}]: one value,
    surrounded by optional white space, and nothing after it. *)
Definition Unmarshal (data : string) : option Value :=
  match value (2 * String.length data + 2) data with
  | Some (v, r) =>
      match skip_space r with
      | EmptyString => Some v
      | _ => None
      end
  | None => None
  end.

End json.

(** ** HTTP messages *)

Module textproto.

Local Open Scope N_scope.

Definition is_lower (c : ascii) : bool := (97 <=? N_of_ascii c) && (N_of_ascii c <=? 122).
Definition is_upper (c : ascii) : bool := (65 <=? N_of_ascii c) && (N_of_ascii c <=? 90).
Definition is_digit (c : ascii) : bool := (48 <=? N_of_ascii c) && (N_of_ascii c <=? 57).

(** The [token] bytes of RFC 7230. *)
Definition validHeaderFieldByte (c : ascii) : bool :=
  is_lower c || is_upper c || is_digit c ||
  existsb (Ascii.eqb c)
    ["!"; "#"; "$"; "%"; "&"; "'"; "*"; "+"; "-"; "."; "^"; "_"; "`"; "|"; "~"]%char.

Fixpoint all_valid (s : string) : bool :=
  match s with
  | EmptyString => true
  | String c s' => validHeaderFieldByte c && all_valid s'
  end.

Fixpoint canonical (upper : bool) (s : string) : string :=
  match s with
  | EmptyString => EmptyString
  | String c s' =>
      let c' := if upper && is_lower c then ascii_of_N (N_of_ascii c - 32)
                else if negb upper && is_upper c then ascii_of_N (N_of_ascii c + 32)
                else c in
      String c' (canonical (Ascii.eqb c' "-") s')
  end.

(** [textproto.CanonicalMIMEHeaderKey]: the first letter and every
    letter after a hyphen in upper case, the others in lower case; a
    key with a byte that no header name may hold is returned as it is. *)
Definition CanonicalMIMEHeaderKey (s : string) : string :=
  if all_valid s then canonical true s else s.

End textproto.

(** The keys under which the handler stores the request's data
    (proxy.go, 19-26). *)
Inductive contextKey := requestBodyKey | pathKey | methodKey | startTimeKey.

#[global] Instance contextKey_eq_dec : EqDecision contextKey.
Proof. solve_decision. Defined.

Module context.

(** A [context.Context], innermost binding first. *)
Definition Context := list (contextKey * Value).

Definition Background : Context := [].

Definition WithValue (ctx : Context) (key : contextKey) (val : Value) : Context :=
  (key, val) :: ctx.

(** [ctx.Value(key)]: the innermost binding of [key], [nil] without one. *)
Fixpoint Value_ (ctx : Context) (key : contextKey) : Value :=
  match ctx with
  | [] => VNil
  | (k, v) :: parent => if decide (k = key) then v else Value_ parent key
  end.

End context.

Module io.

(** An [io.ReadCloser]: the bytes it yields, the error that ends the
    reading (if any) and the error of [Close] (if any). *)
Record ReadCloser := {
  data : string;
  read_err : option string;
  close_err : option string
}.

(** [io.ReadAll]. *)
Definition ReadAll (b : ReadCloser) : string * option string := (data b, read_err b).

(** [io.NopCloser(bytes.NewBuffer(b))]. *)
Definition NopCloser (bytes : string) : ReadCloser :=
  {| data := bytes; read_err := None; close_err := None |}.

End io.

Module url.

Record URL := {
  Scheme : string;
  Host : string;
  Path : string;
  RawQuery : string
}.

End url.

Module http.

(** [http.Header]: a map from canonical keys to their values. *)
Abbreviation Header := (gmap string (list string)).

(** [Header.Get(key)]: the first value under the canonical form of
    [key], the empty string when there is none. *)
Definition Get (h : Header) (key : string) : string :=
  match h !! textproto.CanonicalMIMEHeaderKey key with
  | Some (v :: _) => v
  | _ => ""
  end.

Record Request := {
  Method : string;
  URL : url.URL;
  Host : string;
  Header_ : Header;
  Body : io.ReadCloser;
  Ctx : context.Context
}.

Record Response := {
  StatusCode : Z;
  RHeader : Header;
  RBody : io.ReadCloser
}.

(** What a handler has written to its [http.ResponseWriter]. *)
Record Written := {
  code : Z;
  header : Header;
  body : string
}.

Definition StatusUnauthorized : Z := 401.
Definition StatusInternalServerError : Z := 500.
Definition StatusBadGateway : Z := 502.

(** [http.Error(w, error, code)]. *)
Definition Error (error : string) (code : Z) : Written :=
  {| code := code;
     header := <[ "Content-Type" := ["text/plain; charset=utf-8"] ]>
               {[ "X-Content-Type-Options" := ["nosniff"] ]};
     body := error ++ String newline "" |}.

End http.

(** ** The Log Sink: [internal/logging] *)

Module logging.

Record Entry := {
  Timestamp : Z;
  RequestBody : Value;
  Response : Value;
  Duration : Z;
  Path : string;
  Method : string;
  CorrelationID : string
}.

(** A call of [log.Printf]: the format and its arguments. *)
Inductive Arg := AString (s : string) | AError (err : string) | ADuration (d : Z).

Record Printf := { format : string; args : list Arg }.

(** [type Logger interface]: each method maps the state of the sink to
    its next state and the lines it prints to the process log. *)
Class Logger (L : Type) := {
  LogRequest : L -> Entry -> L * list Printf;
  Close : L -> L * list Printf
}.

(** An [*os.File] opened for appending. *)
Record File := {
  name : string;
  closed : bool;
  contents : string;
  write_fault : option string
}.

Definition ErrClosed : string := "file already closed".

(** [f.Write(b)]: appends, unless the file is closed or the device fails. *)
Definition File_Write (f : File) (b : string) : File * option string :=
  if closed f then (f, Some ErrClosed)
  else match write_fault f with
       | Some err => (f, Some err)
       | None => ({| name := name f; closed := false;
                     contents := contents f ++ b; write_fault := None |}, None)
       end.

(** [f.Close()]: an error on a file that is closed already. *)
Definition File_Close (f : File) : File * option string :=
  if closed f then (f, Some ErrClosed)
  else ({| name := name f; closed := true;
           contents := contents f; write_fault := write_fault f |}, None).

(** [os.OpenFile(filename, O_APPEND|O_CREATE|O_WRONLY, 0o644)], given
    what the file holds already ([None]: it cannot be opened). *)
Definition OpenFile (filename : string) (existing : option string) : File + string :=
  match existing with
  | Some bytes => inl {| name := filename; closed := false;
                         contents := bytes; write_fault := None |}
  | None => inr ("open " ++ filename)
  end.

Record FileLogger := { file : option File }.

Definition NewFileLogger (filename : string) (existing : option string) : FileLogger + string :=
  match OpenFile filename existing with
  | inr err => inr err
  | inl file => inl {| file := Some file |}
  end.

Section FileLogger.

(** [json.Marshal] of an entry (without HTML escaping): the text, or
    the error.  Part of Go's standard library. *)
Variable Marshal : Entry -> string + string.

(** [enc.Encode(entry)]: the JSON text and a newline, in one write. *)
Definition Encode (f : File) (entry : Entry) : File * option string :=
  match Marshal entry with
  | inr err => (f, Some err)
  | inl text => File_Write f (text ++ String newline "")
  end.

(** [FileLogger.LogRequest].  A nil [l.file] makes the write fail
    with [os.ErrInvalid]. *)
Definition FileLogger_LogRequest (l : FileLogger) (entry : Entry) : FileLogger * list Printf :=
  match file l with
  | None =>
      match Marshal entry with
      | inr err => (l, [{| format := "Error encoding log entry: %v"; args := [AError err] |}])
      | inl _ => (l, [{| format := "Error encoding log entry: %v";
                         args := [AError "invalid argument"] |}])
      end
  | Some f =>
      match Encode f entry with
      | (f', Some err) =>
          ({| file := Some f' |},
           [{| format := "Error encoding log entry: %v"; args := [AError err] |}])
      | (f', None) =>
          ({| file := Some f' |},
           [{| format := "Logged %s %s - %v";
               args := [AString (Method entry); AString (Path entry);
                        ADuration (Duration entry)] |}])
      end
  end.

(** [FileLogger.Close]. *)
Definition FileLogger_Close (l : FileLogger) : FileLogger * list Printf :=
  match file l with
  | Some f =>
      match File_Close f with
      | (f', Some err) =>
          ({| file := Some f' |},
           [{| format := "Error closing log file: %v"; args := [AError err] |}])
      | (f', None) => ({| file := Some f' |}, [])
      end
  | None => (l, [])
  end.

#[global] Instance FileLogger_Logger : Logger FileLogger :=
  {| LogRequest := FileLogger_LogRequest; Close := FileLogger_Close |}.

End FileLogger.

End logging.

(** ** The proxy: [internal/proxy] *)

Module proxy.

(** What a run does to the outside, in order: a request handed to the
    underlying transport, an entry handed to the logger, a line of the
    process log. *)
Inductive Event :=
| Upstream (req : http.Request)
| Emit (entry : logging.Entry)
| Log (line : logging.Printf).

Inductive Result (A : Type) :=
| Val (a : A)
| Panic (msg : string).
Arguments Val {A} a.
Arguments Panic {A} msg.

Section Proxy.

Context {L : Type} `{logging.Logger L}.

(** [json.Unmarshal] into an [interface{}] and [http.DefaultTransport],
    the round trip to the upstream: the response, or the error. *)
Variable Unmarshal : string -> option Value.
Variable transport : http.Request -> http.Response + string.

(** The state a request runs in: the logger shared by all requests,
    the events so far, and the clock, which every reading advances. *)
Record World := {
  sink : L;
  trace : list Event;
  clock : Z
}.

Definition M (A : Type) : Type := World -> Result A * World.

#[global] Instance M_ret : MRet M := fun A a w => (Val a, w).

#[global] Instance M_bind : MBind M := fun A B f m w =>
  match m w with
  | (Val a, w') => f a w'
  | (Panic msg, w') => (Panic msg, w')
  end.

Definition panic {A : Type} (msg : string) : M A := fun w => (Panic msg, w).

Definition event (e : Event) : M unit := fun w =>
  (Val tt, {| sink := sink w; trace := trace w ++ [e]; clock := clock w |}).

Definition log_Printf (format : string) (args : list logging.Arg) : M unit :=
  event (Log {| logging.format := format; logging.args := args |}).

Definition time_Now : M Z := fun w =>
  (Val (clock w), {| sink := sink w; trace := trace w; clock := clock w + 1 |})%Z.

Definition time_Since (t : Z) : M Z :=
  now ← time_Now; mret (now - t)%Z.

(** [t.transport.RoundTrip(req)]. *)
Definition transport_RoundTrip (req : http.Request) : M (http.Response + string) :=
  event (Upstream req);; mret (transport req).

(** [t.logger.LogRequest(entry)]. *)
Definition logger_LogRequest (entry : logging.Entry) : M unit := fun w =>
  let (sink', lines) := logging.LogRequest (sink w) entry in
  (Val tt, {| sink := sink';
              trace := trace w ++ Emit entry :: map Log lines;
              clock := clock w |}).

(** The type assertions [v.(string)] and [v.(time.Time)] with one
    result: a run-time panic on any other value, [nil] included. *)
Definition assert_string (v : Value) : M string :=
  match v with
  | VString s => mret s
  | _ => panic "interface conversion: interface {} is not string"
  end.

Definition assert_Time (v : Value) : M Z :=
  match v with
  | VTime t => mret t
  | _ => panic "interface conversion: interface {} is not time.Time"
  end.

Definition set_RBody (resp : http.Response) (b : io.ReadCloser) : http.Response :=
  {| http.StatusCode := http.StatusCode resp;
     http.RHeader := http.RHeader resp;
     http.RBody := b |}.

(** proxy.go, 137-145. *)
Definition correlationID_of (h : http.Header) : string :=
  let correlationID := http.Get h "apim-request-id" in
  if String.eqb correlationID "" then
    let correlationID := http.Get h "x-ms-request-id" in
    if String.eqb correlationID "" then
      http.Get h "x-ms-correlation-request-id"
    else correlationID
  else correlationID.

(** proxy.go, 159-168. *)
Definition responseBody_of (bodyBytes : string) : Value :=
  match Unmarshal bodyBytes with
  | Some responseBody => responseBody
  | None =>
      if strings.Contains bodyBytes "data: "
      then processStreamingResponse Unmarshal bodyBytes
      else VString bodyBytes
  end.

(** [(t *loggingTransport) RoundTrip(req)]: the response (left) or the
    error (right). *)
Definition RoundTrip (req : http.Request) : M (http.Response + string) :=
  let requestBody := context.Value_ (http.Ctx req) requestBodyKey in
  path ← assert_string (context.Value_ (http.Ctx req) pathKey);
  method ← assert_string (context.Value_ (http.Ctx req) methodKey);
  startTime ← assert_Time (context.Value_ (http.Ctx req) startTimeKey);
  r ← transport_RoundTrip req;
  match r with
  | inr err => mret (inr err)
  | inl resp =>
      let correlationID := correlationID_of (http.RHeader resp) in
      match io.ReadAll (http.RBody resp) with
      | (_, Some err) => mret (inr err)
      | (bodyBytes, None) =>
          match io.close_err (http.RBody resp) with
          | Some err => log_Printf "Error closing response body: %v" [logging.AError err]
          | None => mret tt
          end;;
          let resp := set_RBody resp (io.NopCloser bodyBytes) in
          let responseBody := responseBody_of bodyBytes in
          timestamp ← time_Now;
          duration ← time_Since startTime;
          logger_LogRequest
            {| logging.Timestamp := timestamp;
               logging.RequestBody := requestBody;
               logging.Response := responseBody;
               logging.Duration := duration;
               logging.Path := path;
               logging.Method := method;
               logging.CorrelationID := correlationID |};;
          mret (inl resp)
      end
  end.

(** *** The forwarding engine

    [httputil.ReverseProxy] belongs to Go's standard library.  Of its
    [ServeHTTP] the order of the steps is kept: the director, the
    round trip through the transport, the answer to the client, with
    502 for an error.  The two steps that are the library's own are
    taken as given:
    - [prepare req outreq]: from the request that is served and the
      request that the director has rewritten, the headers the outgoing
      request is sent with (the hop-by-hop headers removed,
      [X-Forwarded-For] added), or the error with which the request is
      refused before any round trip (a switch to a protocol whose name
      cannot be printed);
    - [relay outreq res]: what is written to the client for the response
      of the transport (the hop-by-hop headers removed), or the panic
      that gives the request up ([http.ErrAbortHandler], when the copy
      to the client fails), and the lines printed meanwhile. *)
Variable prepare : http.Request -> http.Request -> http.Header + string.
Variable relay :
  http.Request -> http.Response -> Result http.Written * list logging.Printf.

Record ReverseProxy := {
  Director : http.Request -> http.Request;
  Transport : http.Request -> M (http.Response + string)
}.

Definition set_Header (req : http.Request) (h : http.Header) : http.Request :=
  {| http.Method := http.Method req; http.URL := http.URL req; http.Host := http.Host req;
     http.Header_ := h; http.Body := http.Body req; http.Ctx := http.Ctx req |}.

Definition log_lines (lines : list logging.Printf) : M unit := fun w =>
  (Val tt, {| sink := sink w; trace := trace w ++ map Log lines; clock := clock w |}).

(** The default error handler: one line, and 502. *)
Definition ReverseProxy_error (err : string) : M http.Written :=
  log_Printf "http: proxy error: %v" [logging.AError err];;
  mret {| http.code := http.StatusBadGateway; http.header := ∅; http.body := "" |}.

Definition ReverseProxy_ServeHTTP (p : ReverseProxy) (req : http.Request) : M http.Written :=
  let outreq := Director p req in
  match prepare req outreq with
  | inr err => ReverseProxy_error err
  | inl h =>
      let outreq := set_Header outreq h in
      res ← Transport p outreq;
      match res with
      | inr err => ReverseProxy_error err
      | inl res =>
          let (result, printed) := relay outreq res in
          log_lines printed;;
          match result with
          | Val written => mret written
          | Panic msg => panic msg
          end
      end
  end.

Definition singleJoiningSlash (a b : string) : string :=
  let aslash := match String.length a with
                | O => false
                | S n => String.eqb (strings.drop n a) "/"
                end in
  let bslash := strings.HasPrefix b "/" in
  if aslash && bslash then a ++ strings.drop 1 b
  else if negb aslash && negb bslash then a ++ "/" ++ b
  else a ++ b.

Definition set_URL_Host (req : http.Request) (u : url.URL) (host : string)
    (h : http.Header) : http.Request :=
  {| http.Method := http.Method req; http.URL := u; http.Host := host;
     http.Header_ := h; http.Body := http.Body req; http.Ctx := http.Ctx req |}.

(** The director of [httputil.NewSingleHostReverseProxy(target)]. *)
Definition SingleHostDirector (target : url.URL) (req : http.Request) : http.Request :=
  let u := http.URL req in
  let query :=
    if String.eqb (url.RawQuery target) "" || String.eqb (url.RawQuery u) ""
    then url.RawQuery target ++ url.RawQuery u
    else url.RawQuery target ++ "&" ++ url.RawQuery u in
  let h := http.Header_ req in
  set_URL_Host req
    {| url.Scheme := url.Scheme target;
       url.Host := url.Host target;
       url.Path := singleJoiningSlash (url.Path target) (url.Path u);
       url.RawQuery := query |}
    (http.Host req)
    (match h !! "User-Agent" with
     | Some _ => h
     | None => <[ "User-Agent" := [""] ]> h
     end).

(** [type Server struct]; the logger it shares with the transport is
    the [sink] of the world. *)
Record Server := {
  targetURL : url.URL;
  proxy : ReverseProxy;
  apiKey : string
}.

(** The [proxy.Director] that [New] installs: the original director,
    then [req.Host = targetURL.Host]. *)
Definition director (targetURL : url.URL) (req : http.Request) : http.Request :=
  let originalDirector := SingleHostDirector targetURL in
  let req := originalDirector req in
  set_URL_Host req (http.URL req) (url.Host targetURL) (http.Header_ req).

Definition New (targetURL : url.URL) (apiKey : string) : Server :=
  {| targetURL := targetURL;
     proxy := {| Director := director targetURL; Transport := RoundTrip |};
     apiKey := apiKey |}.

Definition set_Body_Ctx (r : http.Request) (b : io.ReadCloser)
    (ctx : context.Context) : http.Request :=
  {| http.Method := http.Method r; http.URL := http.URL r; http.Host := http.Host r;
     http.Header_ := http.Header_ r; http.Body := b; http.Ctx := ctx |}.

(** proxy.go, 66-73: the request is turned away. *)
Definition unauthorized (s : Server) (r : http.Request) : bool :=
  if negb (String.eqb (apiKey s) "") then
    let clientKey := http.Get (http.Header_ r) "X-API-Key" in
    negb (String.eqb clientKey (apiKey s))
  else false.

(** [(s *Server) ServeHTTP(w, r)]: what is written to [w]. *)
Definition ServeHTTP (s : Server) (r : http.Request) : M http.Written :=
  if unauthorized s r then
    mret (http.Error "Unauthorized" http.StatusUnauthorized)
  else
    match io.ReadAll (http.Body r) with
    | (_, Some err) =>
        mret (http.Error "Error reading request body" http.StatusInternalServerError)
    | (bodyBytes, None) =>
        match io.close_err (http.Body r) with
        | Some err => log_Printf "Error closing request body: %v" [logging.AError err]
        | None => mret tt
        end;;
        let body := io.NopCloser bodyBytes in
        requestBody ←
          match Unmarshal bodyBytes with
          | Some requestBody => mret requestBody
          | None =>
              log_Printf "Warning: Could not parse request body as JSON: %v"
                [logging.AError "invalid JSON"];;
              mret (VString bodyBytes)
          end;
        let ctx := http.Ctx r in
        let ctx := context.WithValue ctx requestBodyKey requestBody in
        let ctx := context.WithValue ctx pathKey (VString (url.Path (http.URL r))) in
        let ctx := context.WithValue ctx methodKey (VString (http.Method r)) in
        now ← time_Now;
        let ctx := context.WithValue ctx startTimeKey (VTime now) in
        ReverseProxy_ServeHTTP (proxy s) (set_Body_Ctx r body ctx)
    end.

End Proxy.

End proxy.

(** * The specification's vocabulary *)

(** ** Stream reconstruction, line by line *)

(** The string under [field.content], if [field] is an object that has
    one; the empty string otherwise. *)
Definition content_of (field : option Value) : string :=
  match field with
  | Some (VMap m) =>
      match m !! "content" with
      | Some (VString content) => content
      | _ => ""
      end
  | _ => ""
  end.

(** What a parsed chunk contributes: when its [choices] array is not
    empty and starts with an object, that choice's delta content followed
    by its message content. *)
Definition chunk_content (chunk : gmap string Value) : string :=
  match chunk !! "choices" with
  | Some (VSlice (VMap choice :: _)) =>
      content_of (choice !! "delta") ++ content_of (choice !! "message")
  | _ => ""
  end.

(** What a line contributes: nothing unless it begins with the prefix, is
    not the sentinel and parses as a chunk. *)
Definition line_content (Unmarshal : string -> option Value) (line : string) : string :=
  if strings.HasPrefix line "data: " then
    let data := strings.drop 6 line in
    if String.eqb data "[DONE]" then ""
    else match Unmarshal_map Unmarshal data with
         | Some chunk => chunk_content chunk
         | None => ""
         end
  else "".

Definition flatten (pieces : list string) : string :=
  fold_right String.append "" pieces.

(** [payload.choices[0].message.content]. *)
Definition message_content (payload : Value) : option string :=
  match payload with
  | VMap m =>
      match m !! "choices" with
      | Some (VSlice (VMap choice :: _)) =>
          match choice !! "message" with
          | Some (VMap message) => as_string (message !! "content")
          | _ => None
          end
      | _ => None
      end
  | _ => None
  end.

(** The chunked-event-stream marker as the specification words it: some
    line of the body begins with the prefix. *)
Definition has_marker_line (bodyBytes : string) : bool :=
  existsb (fun line => strings.HasPrefix line "data: ") (strings.Split bodyBytes newline).

(** ** Runs of the proxy *)

Section Runs.

Context {L : Type}.

(** The entries handed to the logger and the requests handed to the
    upstream, in order. *)
Definition emitted (t : list proxy.Event) : list logging.Entry :=
  omap (fun ev => match ev with proxy.Emit entry => Some entry | _ => None end) t.

Definition forwarded (t : list proxy.Event) : list http.Request :=
  omap (fun ev => match ev with proxy.Upstream req => Some req | _ => None end) t.

(** The events a computation adds to the trace of the world it starts
    in, and the value it ends with. *)
Definition events_of {A : Type} (m : proxy.M (L := L) A) (w : proxy.World) : list proxy.Event :=
  drop (length (proxy.trace w)) (proxy.trace (m w).2).

Definition outcome {A : Type} (m : proxy.M (L := L) A) (w : proxy.World) : proxy.Result A :=
  (m w).1.

Definition with_events (w : proxy.World (L := L)) (evs : list proxy.Event) : proxy.World :=
  {| proxy.sink := proxy.sink w;
     proxy.trace := proxy.trace w ++ evs;
     proxy.clock := proxy.clock w |}.

End Runs.

(** The Call Context the transport reads: path, method and start time,
    when all three are there with their types. *)
Definition call_context (ctx : context.Context) : option (string * string * Z) :=
  match context.Value_ ctx pathKey, context.Value_ ctx methodKey,
        context.Value_ ctx startTimeKey with
  | VString path, VString method, VTime startTime => Some (path, method, startTime)
  | _, _, _ => None
  end.

(** A key has a binding in the context. *)
Definition bound (ctx : context.Context) (key : contextKey) : bool :=
  existsb (fun kv => bool_decide (kv.1 = key)) ctx.

(** A response written to the client as it is: status, headers, body. *)
Definition relayed (resp : http.Response) : http.Written :=
  {| http.code := http.StatusCode resp;
     http.header := http.RHeader resp;
     http.body := io.data (http.RBody resp) |}.

Section Exchange.

Variable Unmarshal : string -> option Value.

(** The lines printed when closing a body fails. *)
Definition close_lines (b : io.ReadCloser) (format : string) : list proxy.Event :=
  match io.close_err b with
  | Some err => [proxy.Log {| logging.format := format; logging.args := [logging.AError err] |}]
  | None => []
  end.

(** What the handler prints before it hands the request over. *)
Definition handler_events (r : http.Request) : list proxy.Event :=
  close_lines (http.Body r) "Error closing request body: %v" ++
  match Unmarshal (io.data (http.Body r)) with
  | Some _ => []
  | None => [proxy.Log {| logging.format := "Warning: Could not parse request body as JSON: %v";
                          logging.args := [logging.AError "invalid JSON"] |}]
  end.

(** The request the handler passes to the forwarding engine: the body
    re-installed, the Call Context attached. *)
Definition handed_over (r : http.Request) (now : Z) : http.Request :=
  proxy.set_Body_Ctx r (io.NopCloser (io.data (http.Body r)))
    ((startTimeKey, VTime now)
     :: (methodKey, VString (http.Method r))
     :: (pathKey, VString (url.Path (http.URL r)))
     :: (requestBodyKey,
         match Unmarshal (io.data (http.Body r)) with
         | Some requestBody => requestBody
         | None => VString (io.data (http.Body r))
         end)
     :: http.Ctx r).

(** The same after the director, and with the headers the forwarding
    engine sends it with: the request the underlying transport is
    handed. *)
Definition directed (target : url.URL) (r : http.Request) (now : Z) : http.Request :=
  proxy.director target (handed_over r now).

Definition outgoing (target : url.URL) (r : http.Request) (now : Z) (h : http.Header)
    : http.Request :=
  proxy.set_Header (directed target r now) h.

(** The entry the transport builds for a response read in full, when
    the clock shows [now]. *)
Definition entry_of (req : http.Request) (resp : http.Response)
    (path method : string) (startTime now : Z) : logging.Entry :=
  {| logging.Timestamp := now;
     logging.RequestBody := context.Value_ (http.Ctx req) requestBodyKey;
     logging.Response := proxy.responseBody_of Unmarshal (io.data (http.RBody resp));
     logging.Duration := now + 1 - startTime;
     logging.Path := path;
     logging.Method := method;
     logging.CorrelationID := proxy.correlationID_of (http.RHeader resp) |}.

End Exchange.

(** The response the transport returns: the one of the upstream, its
    body read and installed anew. *)
Definition captured (resp : http.Response) : http.Response :=
  proxy.set_RBody resp (io.NopCloser (io.data (http.RBody resp))).

(** The answer of the forwarding engine to an error. *)
Definition bad_gateway : http.Written :=
  {| http.code := http.StatusBadGateway; http.header := ∅; http.body := "" |}.

Definition proxy_error (err : string) : proxy.Event :=
  proxy.Log {| logging.format := "http: proxy error: %v"; logging.args := [logging.AError err] |}.

(** ** Correlation headers *)

Definition correlation_headers : list string :=
  ["apim-request-id"; "x-ms-request-id"; "x-ms-correlation-request-id"].

(** A header is present: its canonical key has at least one value. *)
Definition present (h : http.Header) (key : string) : bool :=
  match h !! textproto.CanonicalMIMEHeaderKey key with
  | Some (_ :: _) => true
  | _ => false
  end.

(** The value of the first present header among [keys], empty when none
    is present: the specification's wording. *)
Fixpoint first_present (h : http.Header) (keys : list string) : string :=
  match keys with
  | [] => ""
  | key :: keys' => if present h key then http.Get h key else first_present h keys'
  end.

(** The first value among [keys] that is not empty, empty when there is
    none. *)
Fixpoint first_nonempty (h : http.Header) (keys : list string) : string :=
  match keys with
  | [] => ""
  | key :: keys' =>
      if String.eqb (http.Get h key) "" then first_nonempty h keys' else http.Get h key
  end.

(** ** Concrete texts *)

(** A text written with an apostrophe wherever it has a double quote. *)
Fixpoint text (s : string) : string :=
  match s with
  | EmptyString => EmptyString
  | String c s' => String (if Ascii.eqb c "'" then "034"%char else c) (text s')
  end.

Definition lines (ls : list string) : string :=
  flatten (map (fun l => l ++ String newline "") ls).

(** The stream of the specification's example scenario. *)
Definition example_stream : string :=
  lines [ text "data: {'choices':[{'delta':{'content':'Hel'}}]}";
          text "data: {'choices':[{'delta':{'content':'lo'}}]}";
          "data: [DONE]" ].

(** ** Concrete runs *)

(** A logger that keeps the entries in memory. *)
#[global] Instance Recorder : logging.Logger (list logging.Entry) :=
  {| logging.LogRequest := fun l entry => ((l ++ [entry])%list, []);
     logging.Close := fun l => (l, []) |}.

Definition start {L : Type} (l : L) : proxy.World :=
  {| proxy.sink := l; proxy.trace := []; proxy.clock := 0 |}.

Definition azure : url.URL :=
  {| url.Scheme := "https"; url.Host := "example.openai.azure.com";
     url.Path := "/"; url.RawQuery := "" |}.

Definition chat_request (h : http.Header) (b : io.ReadCloser) : http.Request :=
  {| http.Method := "POST";
     http.URL := {| url.Scheme := ""; url.Host := "";
                    url.Path := "/openai/deployments/gpt-4o/chat/completions";
                    url.RawQuery := "api-version=2025-01-01-preview" |};
     http.Host := "localhost:8080";
     http.Header_ := h;
     http.Body := b;
     http.Ctx := context.Background |}.

Definition say_hello : io.ReadCloser :=
  io.NopCloser (text "{'messages':[{'role':'user','content':'Say hello'}]}").

(** A body whose connection breaks after its first bytes. *)
Definition broken_body : io.ReadCloser :=
  {| io.data := "dat"; io.read_err := Some "unexpected EOF"; io.close_err := None |}.

Definition stream_response : http.Response :=
  {| http.StatusCode := 200;
     http.RHeader := <[ "Content-Type" := ["text/event-stream"] ]>
                     {[ "Apim-Request-Id" := ["7c1e"] ]};
     http.RBody := io.NopCloser example_stream |}.

Definition broken_response : http.Response :=
  {| http.StatusCode := 200;
     http.RHeader := {[ "Content-Type" := ["text/event-stream"] ]};
     http.RBody := broken_body |}.

Definition upstream_streams : http.Request -> http.Response + string :=
  fun _ => inl stream_response.

Definition upstream_breaks : http.Request -> http.Response + string :=
  fun _ => inl broken_response.

Definition upstream_down : http.Request -> http.Response + string :=
  fun _ => inr "dial tcp: connection refused".

(** The context the handler builds, and the same without the request
    body. *)
Definition handler_context : context.Context :=
  [ (startTimeKey, VTime 0); (methodKey, VString "POST");
    (pathKey, VString "/chat"); (requestBodyKey, VString "hi") ].

Definition bodyless_context : context.Context :=
  [ (startTimeKey, VTime 0); (methodKey, VString "POST"); (pathKey, VString "/chat") ].

Definition request_with (ctx : context.Context) : http.Request :=
  {| http.Method := "POST";
     http.URL := azure;
     http.Host := "example.openai.azure.com";
     http.Header_ := ∅;
     http.Body := io.NopCloser "hi";
     http.Ctx := ctx |}.


(** A stream none of whose lines contributes content. *)
Definition quiet_stream : string :=
  lines [ "event: ping"; "data: [DONE]"; text "data: {'id':'chatcmpl-1'}"; "data: {" ].

Definition secret_header : http.Header := {[ "X-Api-Key" := ["secret"] ]}.

(** An upstream that answers every request with the given bytes. *)
Definition upstream_says (bytes : string) : http.Request -> http.Response + string :=
  fun _ => inl {| http.StatusCode := 200;
                  http.RHeader := {[ "Content-Type" := ["text/plain"] ]};
                  http.RBody := io.NopCloser bytes |}.

Definition wrong_header : http.Header := {[ "X-Api-Key" := ["wrong"] ]}.

(** How the handler ends, given what the upstream returns and what the
    forwarding engine does: no logger takes part in it. *)
Definition answer (Unmarshal : string -> option Value)
    (transport : http.Request -> http.Response + string)
    (prepare : http.Request -> http.Request -> http.Header + string)
    (relay : http.Request -> http.Response ->
             proxy.Result http.Written * list logging.Printf)
    (target : url.URL) (key : string) (r : http.Request) (now : Z)
    : proxy.Result http.Written :=
  if negb (String.eqb key "") &&
     negb (String.eqb (http.Get (http.Header_ r) "X-API-Key") key)
  then proxy.Val (http.Error "Unauthorized" http.StatusUnauthorized)
  else match io.read_err (http.Body r) with
       | Some _ =>
           proxy.Val (http.Error "Error reading request body"
                        http.StatusInternalServerError)
       | None =>
           match prepare (handed_over Unmarshal r now) (directed Unmarshal target r now) with
           | inr _ => proxy.Val bad_gateway
           | inl h =>
               match transport (outgoing Unmarshal target r now h) with
               | inl resp =>
                   match io.read_err (http.RBody resp) with
                   | None => (relay (outgoing Unmarshal target r now h) (captured resp)).1
                   | Some _ => proxy.Val bad_gateway
                   end
               | inr _ => proxy.Val bad_gateway
               end
           end
       end.

(** A stand-in for the encoder: the method and the path of the entry. *)
Definition one_line (entry : logging.Entry) : string + string :=
  inl (logging.Method entry ++ " " ++ logging.Path entry)%string.

Definition open_log : logging.File :=
  {| logging.name := "openai_proxy.json"; logging.closed := false;
     logging.contents := ""; logging.write_fault := None |}.

Definition full_disk_log : logging.File :=
  {| logging.name := "openai_proxy.json"; logging.closed := false;
     logging.contents := ""; logging.write_fault := Some "no space left on device" |}.

Definition hello_entry : logging.Entry :=
  entry_of json.Unmarshal (request_with handler_context) stream_response "/chat" "POST" 0 0.

(** Headers whose primary correlation header is there with an empty
    value. *)
Definition empty_primary : http.Header :=
  <[ "Apim-Request-Id" := [""] ]> {[ "X-Ms-Request-Id" := ["abc"] ]}.

Definition upstream_with (h : http.Header) : http.Request -> http.Response + string :=
  fun _ => inl {| http.StatusCode := 200; http.RHeader := h;
                  http.RBody := io.NopCloser "{}" |}.

(** The line a [Close] prints on a file that is closed already. *)
Definition already_closed : logging.Printf :=
  {| logging.format := "Error closing log file: %v";
     logging.args := [logging.AError logging.ErrClosed] |}.

(** * The rest of the program *)

(** ** Configuration: [config] *)

Module config.

Record Config := {
  AzureOpenAIEndpoint : string;
  ListenAddr : string;
  LogFilePath : string;
  APIKey : string
}.

(** [getEnvOrDefault(key, defaultVal)], the environment of the process
    being the map that [os.LookupEnv] reads. *)
Definition getEnvOrDefault (env : gmap string string) (key defaultVal : string) : string :=
  match env !! key with
  | Some val => if negb (String.eqb val "") then val else defaultVal
  | None => defaultVal
  end.

Definition NewDefaultConfig (env : gmap string string) : Config :=
  {| AzureOpenAIEndpoint :=
       getEnvOrDefault env "AZURE_OPENAI_ENDPOINT" "your-deployment.openai.azure.com/";
     ListenAddr := getEnvOrDefault env "LISTEN_ADDR" ":8080";
     LogFilePath := getEnvOrDefault env "LOG_FILE_PATH" "openai_proxy.json";
     APIKey := getEnvOrDefault env "PROXY_API_KEY" "" |}.

End config.

(** ** Start-up: [Server.Run] and [main] *)

Module cmd.

Section Main.

(** Go's standard library: the decoder, the encoder, the round trip to
    the upstream, [url.Parse], the [String] method of a URL, and
    [http.ListenAndServe], which serves requests with the handler it is
    given until it fails. *)
Variable Unmarshal : string -> option Value.
Variable Marshal : logging.Entry -> string + string.
Variable transport : http.Request -> http.Response + string.
Variable Parse : string -> url.URL + string.
Variable URL_String : url.URL -> string.
Variable ListenAndServe :
  string -> proxy.Server (L := logging.FileLogger) ->
  proxy.M (L := logging.FileLogger) (option string).

(** [(s *Server) Run(listenAddr)] (proxy.go, 107-115). *)
Definition Run (s : proxy.Server (L := logging.FileLogger)) (listenAddr : string)
    : proxy.M (L := logging.FileLogger) (option string) :=
  proxy.log_Printf "Starting proxy server on %s, forwarding to %s"
    [logging.AString listenAddr; logging.AString (URL_String (proxy.targetURL s))];;
  (if negb (String.eqb (proxy.apiKey s) "")
   then proxy.log_Printf "API key authentication enabled" []
   else proxy.log_Printf
          "Warning: API key authentication disabled, proxy is open to all requests" []);;
  ListenAndServe listenAddr s.

(** What [run] does once the logger is there, up to its return. *)
Definition serve (cfg : config.Config) : proxy.M (L := logging.FileLogger) (option string) :=
  match Parse (config.AzureOpenAIEndpoint cfg) with
  | inr err => mret (Some ("failed to parse target URL: " ++ err))
  | inl targetURL =>
      let server :=
        proxy.New (H := logging.FileLogger_Logger Marshal) Unmarshal transport
          targetURL (config.APIKey cfg) in
      proxy.log_Printf "Logging requests and responses to %s"
        [logging.AString (config.LogFilePath cfg)];;
      err ← Run server (config.ListenAddr cfg);
      match err with
      | Some err => mret (Some ("server error: " ++ err))
      | None => mret None
      end
  end.

(** [run()] (main.go, 14-39): the error it returns, or the panic that
    leaves it, and the world it leaves behind; no world when the logger
    could not be created.  [existing] is what the log file holds when
    it is opened ([None]: it cannot be opened) and [now] the clock at
    that moment.  The deferred [logger.Close()] runs on every way out. *)
Definition run (env : gmap string string) (existing : option string) (now : Z)
    : proxy.Result (option string) * option (proxy.World (L := logging.FileLogger)) :=
  let cfg := config.NewDefaultConfig env in
  match logging.NewFileLogger (config.LogFilePath cfg) existing with
  | inr err => (proxy.Val (Some ("failed to create logger: " ++ err)), None)
  | inl logger =>
      let (result, w) :=
        serve cfg {| proxy.sink := logger; proxy.trace := []; proxy.clock := now |} in
      let (logger', printed) := logging.FileLogger_Close (proxy.sink w) in
      (result,
       Some {| proxy.sink := logger';
               proxy.trace := (proxy.trace w ++ map proxy.Log printed)%list;
               proxy.clock := proxy.clock w |})
  end.

(** [main()]: the exit status of the process and the error it prints
    with [log.Println]; a panic ends a Go process with status 2. *)
Definition main (env : gmap string string) (existing : option string) (now : Z)
    : Z * option string :=
  match (run env existing now).1 with
  | proxy.Val None => (0%Z, None)
  | proxy.Val (Some err) => (1%Z, Some err)
  | proxy.Panic _ => (2%Z, None)
  end.

End Main.

End cmd.

(** ** Sequences of log calls *)

Section Logging.

Variable Marshal : logging.Entry -> string + string.

(** The entries logged one after the other: the sink afterwards, and all
    the lines printed. *)
Fixpoint log_all (l : logging.FileLogger) (entries : list logging.Entry)
    : logging.FileLogger * list logging.Printf :=
  match entries with
  | [] => (l, [])
  | entry :: entries' =>
      let (l', printed) := logging.FileLogger_LogRequest Marshal l entry in
      let (l'', printed') := log_all l' entries' in
      (l'', (printed ++ printed')%list)
  end.

(** The line the encoder writes for an entry. *)
Definition line_of (entry : logging.Entry) : string :=
  match Marshal entry with
  | inl text => text ++ String newline ""
  | inr _ => ""
  end.

Definition encodable (entry : logging.Entry) : bool :=
  match Marshal entry with inl _ => true | inr _ => false end.

End Logging.

(** What the file of a sink holds, nothing when it has no file. *)
Definition contents_of (l : logging.FileLogger) : string :=
  match logging.file l with
  | Some f => logging.contents f
  | None => ""
  end.

(** A sink whose file is open on a device that works. *)
Definition healthy (l : logging.FileLogger) : bool :=
  match logging.file l with
  | Some f => negb (logging.closed f) && bool_decide (logging.write_fault f = None)
  | None => false
  end.

Definition closed_sink (l : logging.FileLogger) : bool :=
  match logging.file l with
  | Some f => logging.closed f
  | None => false
  end.

(** The lines of a stream that carry data. *)
Definition data_lines (ls : list string) : list string :=
  List.filter (fun line => strings.HasPrefix line "data: ") ls.

(** The lines [LogRequest] prints. *)
Definition logged_line (entry : logging.Entry) : logging.Printf :=
  {| logging.format := "Logged %s %s - %v";
     logging.args := [logging.AString (logging.Method entry);
                      logging.AString (logging.Path entry);
                      logging.ADuration (logging.Duration entry)] |}.

Definition encoding_error (err : string) : logging.Printf :=
  {| logging.format := "Error encoding log entry: %v";
     logging.args := [logging.AError err] |}.

(** ** Whole exchanges *)

Section Exchanges.

Context {L : Type} `{logging.Logger L}.
Variable Unmarshal : string -> option Value.
Variable transport : http.Request -> http.Response + string.
Variable prepare : http.Request -> http.Request -> http.Header + string.
Variable relay :
  http.Request -> http.Response -> proxy.Result http.Written * list logging.Printf.

(** The five ways an exchange can go. *)
Inductive Exchange (target : url.URL) (key : string) (r : http.Request) (w : proxy.World (L := L))
    : Prop :=
| turned_away :
    proxy.unauthorized (proxy.New Unmarshal transport target key) r = true ->
    proxy.ServeHTTP Unmarshal prepare relay (proxy.New Unmarshal transport target key) r w
    = (proxy.Val (http.Error "Unauthorized" http.StatusUnauthorized), w) ->
    Exchange target key r w
| unreadable err :
    proxy.unauthorized (proxy.New Unmarshal transport target key) r = false ->
    io.read_err (http.Body r) = Some err ->
    proxy.ServeHTTP Unmarshal prepare relay (proxy.New Unmarshal transport target key) r w
    = (proxy.Val (http.Error "Error reading request body"
                    http.StatusInternalServerError), w) ->
    Exchange target key r w
| refused err :
    proxy.unauthorized (proxy.New Unmarshal transport target key) r = false ->
    io.read_err (http.Body r) = None ->
    prepare (handed_over Unmarshal r (proxy.clock w))
      (directed Unmarshal target r (proxy.clock w)) = inr err ->
    proxy.ServeHTTP Unmarshal prepare relay (proxy.New Unmarshal transport target key) r w =
    (proxy.Val bad_gateway,
     {| proxy.sink := proxy.sink w;
        proxy.trace := proxy.trace w ++ handler_events Unmarshal r ++ [proxy_error err];
        proxy.clock := proxy.clock w + 1 |}) ->
    Exchange target key r w
| failed h err :
    proxy.unauthorized (proxy.New Unmarshal transport target key) r = false ->
    io.read_err (http.Body r) = None ->
    prepare (handed_over Unmarshal r (proxy.clock w))
      (directed Unmarshal target r (proxy.clock w)) = inl h ->
    (transport (outgoing Unmarshal target r (proxy.clock w) h) = inr err \/
     exists resp, transport (outgoing Unmarshal target r (proxy.clock w) h) = inl resp /\
                  io.read_err (http.RBody resp) = Some err) ->
    proxy.ServeHTTP Unmarshal prepare relay (proxy.New Unmarshal transport target key) r w =
    (proxy.Val bad_gateway,
     {| proxy.sink := proxy.sink w;
        proxy.trace := proxy.trace w ++ handler_events Unmarshal r
          ++ [proxy.Upstream (outgoing Unmarshal target r (proxy.clock w) h);
              proxy_error err];
        proxy.clock := proxy.clock w + 1 |}) ->
    Exchange target key r w
| completed h resp :
    proxy.unauthorized (proxy.New Unmarshal transport target key) r = false ->
    io.read_err (http.Body r) = None ->
    prepare (handed_over Unmarshal r (proxy.clock w))
      (directed Unmarshal target r (proxy.clock w)) = inl h ->
    transport (outgoing Unmarshal target r (proxy.clock w) h) = inl resp ->
    io.read_err (http.RBody resp) = None ->
    (let outreq := outgoing Unmarshal target r (proxy.clock w) h in
     let entry := entry_of Unmarshal outreq resp (url.Path (http.URL r)) (http.Method r)
                    (proxy.clock w) (proxy.clock w + 1) in
     proxy.ServeHTTP Unmarshal prepare relay (proxy.New Unmarshal transport target key) r w =
     ((relay outreq (captured resp)).1,
      {| proxy.sink := (logging.LogRequest (proxy.sink w) entry).1;
         proxy.trace := proxy.trace w ++ handler_events Unmarshal r
           ++ proxy.Upstream outreq
           :: close_lines (http.RBody resp) "Error closing response body: %v"
           ++ proxy.Emit entry
           :: map proxy.Log (logging.LogRequest (proxy.sink w) entry).2
           ++ map proxy.Log (relay outreq (captured resp)).2;
         proxy.clock := proxy.clock w + 3 |})) ->
    Exchange target key r w.

End Exchanges.

(** ** The server around the handler *)

(** What becomes of a request: an answer, or a connection dropped
    without one. *)
Inductive Served :=
| Answered (written : http.Written)
| Dropped.

Definition ErrAbortHandler : string := "net/http: abort Handler".

Definition panic_line (msg : string) : proxy.Event :=
  proxy.Log {| logging.format := "http: panic serving %v: %v";
               logging.args := [logging.AError msg] |}.

(** The server of [net/http] around a handler, as the documentation of
    [http.Handler] has it: a panic of the handler is recovered, printed
    (unless it is [http.ErrAbortHandler]) and confined to the request,
    whose connection is closed.  The address of the client and the stack
    of the line are left out. *)
Definition serve_conn {L : Type} (handler : http.Request -> proxy.M (L := L) http.Written)
    (r : http.Request) : proxy.M (L := L) Served := fun w =>
  match handler r w with
  | (proxy.Val written, w') => (proxy.Val (Answered written), w')
  | (proxy.Panic msg, w') =>
      (proxy.Val Dropped,
       if String.eqb msg ErrAbortHandler then w' else with_events w' [panic_line msg])
  end.

(** A forwarding engine that sends the headers as they are and writes
    the response as it is. *)
Definition plain_prepare (req outreq : http.Request) : http.Header + string :=
  inl (http.Header_ outreq).

Definition plain_relay (outreq : http.Request) (res : http.Response)
    : proxy.Result http.Written * list logging.Printf :=
  (proxy.Val (relayed res), []).




(** And a request that asks for a switch to a protocol whose name cannot
    be printed (it has a byte outside 32..126) is refused before any
    round trip; here for a [Connection] header that is the one token
    [Upgrade]. *)
Definition IsPrint (s : string) : bool :=
  forallb (fun c => (32 <=? nat_of_ascii c)%nat && (nat_of_ascii c <? 127)%nat)
    (list_ascii_of_string s).

Definition upgradeType (h : http.Header) : string :=
  if bool_decide (h !! "Connection" = Some ["Upgrade"]) then http.Get h "Upgrade" else "".

Definition checking_prepare (req outreq : http.Request) : http.Header + string :=
  if IsPrint (upgradeType (http.Header_ outreq)) then inl (http.Header_ outreq)
  else inr "client tried to switch to invalid protocol".

(** A request for a switch to a protocol named by the one byte 233. *)
Definition switching_header : http.Header :=
  <[ "Upgrade" := [String "233" ""] ]> {[ "Connection" := ["Upgrade"] ]}.



(** ** Start-up lines *)

Definition starting (listenAddr target : string) : proxy.Event :=
  proxy.Log {| logging.format := "Starting proxy server on %s, forwarding to %s";
               logging.args := [logging.AString listenAddr; logging.AString target] |}.

Definition notice (text : string) : proxy.Event :=
  proxy.Log {| logging.format := text; logging.args := [] |}.

Definition no_key_header : http.Request :=
  {| http.Method := "GET"; http.URL := azure; http.Host := ""; http.Header_ := ∅;
     http.Body := io.NopCloser ""; http.Ctx := context.Background |}.

(** ** Sequences of exchanges, and stand-ins for start-up *)

(** Requests served one after the other by the same server: a request
    whose handler panics is dropped, and the next one is served. *)
Fixpoint serve_all {L : Type} (Unmarshal : string -> option Value)
    (prepare : http.Request -> http.Request -> http.Header + string)
    (relay : http.Request -> http.Response ->
             proxy.Result http.Written * list logging.Printf)
    (s : proxy.Server (L := L)) (requests : list http.Request) : proxy.M (L := L) unit :=
  match requests with
  | [] => mret tt
  | r :: requests' =>
      serve_conn (proxy.ServeHTTP Unmarshal prepare relay s) r;;
      serve_all Unmarshal prepare relay s requests'
  end.

(** A listener that serves the requests it is given and then fails. *)
Definition listener {L : Type} (Unmarshal : string -> option Value)
    (prepare : http.Request -> http.Request -> http.Header + string)
    (relay : http.Request -> http.Response ->
             proxy.Result http.Written * list logging.Printf)
    (requests : list http.Request) (listenAddr : string) (s : proxy.Server (L := L))
    : proxy.M (L := L) (option string) :=
  serve_all Unmarshal prepare relay s requests;; mret (Some "http: Server closed").

(** A stand-in for [url.Parse] on texts without a scheme: the text is the
    path. *)
Definition path_only (rawURL : string) : url.URL + string :=
  inl {| url.Scheme := ""; url.Host := ""; url.Path := rawURL; url.RawQuery := "" |}.

Definition unparsable (rawURL : string) : url.URL + string :=
  inr "net/url: invalid control character in URL".

Definition show_path (u : url.URL) : string := url.Path u.

(** A listener that serves one request and then fails. *)
Definition serve_once (r : http.Request) (listenAddr : string)
    (s : proxy.Server (L := logging.FileLogger))
    : proxy.M (L := logging.FileLogger) (option string) :=
  listener json.Unmarshal plain_prepare plain_relay [r] listenAddr s.

(** The world in which [run] starts the listener: the log file open, the
    three start-up lines printed. *)
Definition listening (URL_String : url.URL -> string) (cfg : config.Config)
    (target : url.URL) (old : string) (now : Z) : proxy.World (L := logging.FileLogger) :=
  {| proxy.sink := {| logging.file :=
                        Some {| logging.name := config.LogFilePath cfg;
                                logging.closed := false;
                                logging.contents := old;
                                logging.write_fault := None |} |};
     proxy.trace :=
       [ proxy.Log {| logging.format := "Logging requests and responses to %s";
                      logging.args := [logging.AString (config.LogFilePath cfg)] |};
         starting (config.ListenAddr cfg) (URL_String target);
         notice (if negb (String.eqb (config.APIKey cfg) "")
                 then "API key authentication enabled"
                 else "Warning: API key authentication disabled, proxy is open to all requests") ];
     proxy.clock := now |}.

(** * Results *)

(** ** Strings *)

Lemma append_cons (c : ascii) (s t : string) :
  String c s ++ t = String c (s ++ t).
Proof. reflexivity. Qed.

Lemma append_nil_r (s : string) : s ++ "" = s.
Proof. induction s as [|c s IH]; [reflexivity|]. now rewrite append_cons, IH. Qed.

Lemma append_assoc (s t u : string) : (s ++ t) ++ u = s ++ (t ++ u).
Proof.
  induction s as [|c s IH]; [reflexivity|].
  now rewrite !append_cons, IH.
Qed.

(** ** The Stream Reconstructor *)

Section StreamReconstructorFacts.

Variable Unmarshal : string -> option Value.

Lemma TrimPrefix_data (line : string) :
  strings.HasPrefix line "data: " = true ->
  strings.TrimPrefix line "data: " = strings.drop 6 line.
Proof. intros E. unfold strings.TrimPrefix. now rewrite E. Qed.

Lemma extract_content_app (acc : string) (chunk : gmap string Value) :
  extract_content acc chunk = acc ++ chunk_content chunk.
Proof.
  unfold extract_content, chunk_content, content_of, as_slice, as_map, as_string.
  destruct (chunk !! "choices") as [[| | | |[|[] ?]| |]|];
    rewrite ?append_nil_r; try reflexivity.
  destruct (m !! "delta") as [[| | | | |delta|]|],
           (m !! "message") as [[| | | | |message|]|];
    repeat match goal with
      | |- context [?d !! "content"] =>
          destruct (d !! "content") as [[]|]
      end;
    rewrite ?append_nil_r, ?append_assoc; reflexivity.
Qed.

Lemma loop_body_app (acc line : string) :
  loop_body Unmarshal acc line = acc ++ line_content Unmarshal line.
Proof.
  unfold loop_body, line_content.
  destruct (strings.HasPrefix line "data: ") eqn:E; [|now rewrite append_nil_r].
  rewrite (TrimPrefix_data _ E).
  destruct (String.eqb _ "[DONE]"); [now rewrite append_nil_r|].
  destruct (Unmarshal_map _ _); [apply extract_content_app|now rewrite append_nil_r].
Qed.

Lemma accumulate_flatten (ls : list string) (acc : string) :
  accumulate Unmarshal ls acc = acc ++ flatten (map (line_content Unmarshal) ls).
Proof.
  unfold accumulate. revert acc.
  induction ls as [|l ls IH]; intros acc; simpl.
  - now rewrite append_nil_r.
  - now rewrite IH, loop_body_app, append_assoc.
Qed.

Lemma flatten_app (xs ys : list string) :
  flatten (xs ++ ys) = flatten xs ++ flatten ys.
Proof.
  induction xs as [|x xs IH]; simpl; [reflexivity|].
  now rewrite IH, append_assoc.
Qed.

Lemma flatten_all_empty (ls : list string) :
  (forall l, In l ls -> l = "") -> flatten ls = "".
Proof.
  induction ls as [|l ls IH]; intros Hall; simpl; [reflexivity|].
  rewrite (Hall l (or_introl eq_refl)), IH; [reflexivity|].
  intros l' Hl'. apply Hall. now right.
Qed.

Lemma processStreamingResponse_flatten (responseText : string) :
  processStreamingResponse Unmarshal responseText =
  reconstructed
    (flatten (map (line_content Unmarshal) (strings.Split responseText newline))).
Proof. unfold processStreamingResponse. now rewrite accumulate_flatten. Qed.

End StreamReconstructorFacts.

(** C4. The Stream Reconstructor splits its input at the newlines and
    returns the payload whose content is the concatenation, in line order,
    of what each line contributes: nothing for a line that does not begin
    with [data: ], for the sentinel [[DONE]] and for a chunk that does not
    parse; otherwise, when the chunk's [choices] is a non-empty array, the
    first choice's [delta.content] and [message.content] strings.  Splitting
    the input in two concatenates the two contents.  On the example of the
    specification the message content is [Hello]. *)
Theorem stream_reconstruction :
  (forall (Unmarshal : string -> option Value) (responseText : string),
      processStreamingResponse Unmarshal responseText =
      reconstructed
        (flatten (map (line_content Unmarshal) (strings.Split responseText newline))))
  /\ (forall (Unmarshal : string -> option Value) (before after : list string),
        accumulate Unmarshal (before ++ after) "" =
        accumulate Unmarshal before "" ++ accumulate Unmarshal after "")
  /\ message_content (processStreamingResponse json.Unmarshal example_stream)
     = Some "Hello".
Proof.
  split; [exact processStreamingResponse_flatten|split].
  - intros U before after.
    now rewrite !accumulate_flatten, map_app, flatten_app.
  - vm_compute. reflexivity.
Qed.

(** C10. The Stream Reconstructor is a total function: on every input it
    returns the object with the one key [choices], holding one choice with
    one message of role [assistant] and some content; the content is empty
    when no line contributes any; the result is never the input text. *)
Theorem reconstructor_total_fixed_shape :
  forall (Unmarshal : string -> option Value) (responseText : string),
    (exists c : string,
        processStreamingResponse Unmarshal responseText =
        VMap {[ "choices" :=
          VSlice [ VMap {[ "message" :=
            VMap (<[ "role" := VString "assistant" ]>
                   {[ "content" := VString c ]}) ]} ] ]})
    /\ ((forall line, In line (strings.Split responseText newline) ->
                      line_content Unmarshal line = "") ->
        message_content (processStreamingResponse Unmarshal responseText) = Some "")
    /\ processStreamingResponse Unmarshal responseText <> VString responseText.
Proof.
  intros U s. split; [|split].
  - now eexists.
  - intros Hnone. rewrite processStreamingResponse_flatten, flatten_all_empty.
    + reflexivity.
    + intros l Hl. apply in_map_iff in Hl as (line & <- & Hline). now apply Hnone.
  - discriminate.
Qed.

Lemma reconstructor_quiet_stream :
  message_content (processStreamingResponse json.Unmarshal quiet_stream) = Some "".
Proof.
  apply (proj1 (proj2 (reconstructor_total_fixed_shape json.Unmarshal quiet_stream))).
  intros line Hin. vm_compute in Hin.
  repeat (destruct Hin as [<-|Hin]; [vm_compute; reflexivity|]).
  destruct Hin.
Defined.

Local Open Scope list_scope.

(** ** Runs of the transport and of the handler *)

Ltac run :=
  unfold mbind, mret, proxy.M_bind, proxy.M_ret, proxy.transport_RoundTrip,
    proxy.log_Printf, proxy.event, proxy.time_Since, proxy.time_Now,
    proxy.logger_LogRequest, proxy.panic, io.ReadAll;
  cbn.

Section ProxyFacts.

Context {L : Type} `{logging.Logger L}.
Variable Unmarshal : string -> option Value.
Variable transport : http.Request -> http.Response + string.
Variable prepare : http.Request -> http.Request -> http.Header + string.
Variable relay :
  http.Request -> http.Response -> proxy.Result http.Written * list logging.Printf.

Local Abbreviation RoundTrip := (proxy.RoundTrip Unmarshal transport).
Local Abbreviation New := (proxy.New Unmarshal transport).
Local Abbreviation World := (proxy.World (L := L)).
Local Abbreviation Server := (proxy.Server (L := L)).

Lemma call_context_Some (ctx : context.Context) path method startTime :
  call_context ctx = Some (path, method, startTime) ->
  context.Value_ ctx pathKey = VString path /\
  context.Value_ ctx methodKey = VString method /\
  context.Value_ ctx startTimeKey = VTime startTime.
Proof.
  unfold call_context.
  destruct (context.Value_ ctx pathKey); try discriminate.
  destruct (context.Value_ ctx methodKey); try discriminate.
  destruct (context.Value_ ctx startTimeKey); try discriminate.
  now intros [= -> -> ->].
Qed.

(** Without its Call Context the transport panics at once. *)
Lemma RoundTrip_panics (req : http.Request) (w : World) :
  call_context (http.Ctx req) = None ->
  exists msg, RoundTrip req w = (proxy.Panic msg, w).
Proof.
  unfold call_context, proxy.RoundTrip. intros Hctx.
  destruct (context.Value_ (http.Ctx req) pathKey); try (eexists; reflexivity).
  destruct (context.Value_ (http.Ctx req) methodKey); try (eexists; reflexivity).
  destruct (context.Value_ (http.Ctx req) startTimeKey); try (eexists; reflexivity).
  discriminate.
Qed.

(** An error of the underlying transport is returned as it is. *)
Lemma RoundTrip_transport_error (req : http.Request) (w : World) c err :
  call_context (http.Ctx req) = Some c ->
  transport req = inr err ->
  RoundTrip req w = (proxy.Val (inr err), with_events w [proxy.Upstream req]).
Proof.
  destruct c as [[path method] startTime].
  intros (Hp & Hm & Ht)%call_context_Some Htr.
  unfold proxy.RoundTrip. rewrite Hp, Hm, Ht.
  run. rewrite Htr. reflexivity.
Qed.

(** So is an error met while reading the body of the response. *)
Lemma RoundTrip_read_error (req : http.Request) (w : World) c resp err :
  call_context (http.Ctx req) = Some c ->
  transport req = inl resp ->
  io.read_err (http.RBody resp) = Some err ->
  RoundTrip req w = (proxy.Val (inr err), with_events w [proxy.Upstream req]).
Proof.
  destruct c as [[path method] startTime].
  intros (Hp & Hm & Ht)%call_context_Some Htr Hrd.
  unfold proxy.RoundTrip. rewrite Hp, Hm, Ht.
  run. rewrite Htr. run. rewrite Hrd. reflexivity.
Qed.

(** A response read in full is logged and returned. *)
Lemma RoundTrip_logs (req : http.Request) (w : World) path method startTime resp :
  call_context (http.Ctx req) = Some (path, method, startTime) ->
  transport req = inl resp ->
  io.read_err (http.RBody resp) = None ->
  let entry := entry_of Unmarshal req resp path method startTime (proxy.clock w) in
  RoundTrip req w =
  (proxy.Val (inl (proxy.set_RBody resp (io.NopCloser (io.data (http.RBody resp))))),
   {| proxy.sink := (logging.LogRequest (proxy.sink w) entry).1;
      proxy.trace := proxy.trace w ++
        proxy.Upstream req
          :: close_lines (http.RBody resp) "Error closing response body: %v"
          ++ proxy.Emit entry :: map proxy.Log (logging.LogRequest (proxy.sink w) entry).2;
      proxy.clock := proxy.clock w + 2 |}).
Proof.
  intros (Hp & Hm & Ht)%call_context_Some Htr Hrd entry.
  unfold proxy.RoundTrip. rewrite Hp, Hm, Ht.
  run. rewrite Htr. run. rewrite Hrd.
  unfold close_lines. subst entry. unfold entry_of.
  destruct (io.close_err (http.RBody resp)); run;
    destruct (logging.LogRequest _ _) as [sink' lines'] eqn:E; cbn;
    rewrite <- ?app_assoc; cbn; do 2 f_equal; lia.
Qed.

(** The forwarding engine: the director, the preparation of the outgoing
    request, the round trip, the relay. *)
Lemma ReverseProxy_run (p : proxy.ReverseProxy) (req : http.Request) (w : World) :
  proxy.ReverseProxy_ServeHTTP prepare relay p req w =
  match prepare req (proxy.Director p req) with
  | inr err => (proxy.Val bad_gateway, with_events (L := L) w [proxy_error err])
  | inl h =>
      let outreq := proxy.set_Header (proxy.Director p req) h in
      match proxy.Transport p outreq w with
      | (proxy.Val (inl res), w') =>
          ((relay outreq res).1,
           with_events (L := L) w' (map proxy.Log (relay outreq res).2))
      | (proxy.Val (inr err), w') =>
          (proxy.Val bad_gateway, with_events (L := L) w' [proxy_error err])
      | (proxy.Panic msg, w') => (proxy.Panic msg, w')
      end
  end.
Proof.
  unfold proxy.ReverseProxy_ServeHTTP, proxy.ReverseProxy_error, proxy.log_lines. run.
  destruct (prepare req (proxy.Director p req)) as [h|err]; [|reflexivity].
  destruct (proxy.Transport p _ w) as [[[res|err]|msg] w']; cbn; try reflexivity.
  destruct (relay _ res) as [[written|msg] printed]; reflexivity.
Qed.

(** An authorized request whose body is read is handed over, with its
    Call Context, one tick later. *)
Lemma ServeHTTP_hands_over (s : Server) (r : http.Request) (w : World) :
  proxy.unauthorized s r = false ->
  io.read_err (http.Body r) = None ->
  proxy.ServeHTTP Unmarshal prepare relay s r w =
  proxy.ReverseProxy_ServeHTTP prepare relay (proxy.proxy s)
    (handed_over Unmarshal r (proxy.clock w))
    {| proxy.sink := proxy.sink w;
       proxy.trace := proxy.trace w ++ handler_events Unmarshal r;
       proxy.clock := proxy.clock w + 1 |}.
Proof.
  intros Hauth Hrd. unfold proxy.ServeHTTP, handler_events, handed_over, close_lines.
  rewrite Hauth. run. rewrite Hrd.
  destruct (io.close_err (http.Body r)), (Unmarshal (io.data (http.Body r))); run;
    rewrite <- ?app_assoc, ?app_nil_r; reflexivity.
Qed.


Lemma outgoing_context (target : url.URL) (r : http.Request) (now : Z) (h : http.Header) :
  call_context (http.Ctx (outgoing Unmarshal target r now h)) =
  Some (url.Path (http.URL r), http.Method r, now).
Proof. reflexivity. Qed.

Lemma ServeHTTP_run (target : url.URL) (key : string) (r : http.Request) (w : World) :
  proxy.unauthorized (New target key) r = false ->
  io.read_err (http.Body r) = None ->
  let w1 := {| proxy.sink := proxy.sink w;
               proxy.trace := proxy.trace w ++ handler_events Unmarshal r;
               proxy.clock := proxy.clock w + 1 |} in
  proxy.ServeHTTP Unmarshal prepare relay (New target key) r w =
  match prepare (handed_over Unmarshal r (proxy.clock w))
          (directed Unmarshal target r (proxy.clock w)) with
  | inr err => (proxy.Val bad_gateway, with_events (L := L) w1 [proxy_error err])
  | inl h =>
      let outreq := outgoing Unmarshal target r (proxy.clock w) h in
      match RoundTrip outreq w1 with
      | (proxy.Val (inl res), w') =>
          ((relay outreq res).1,
           with_events (L := L) w' (map proxy.Log (relay outreq res).2))
      | (proxy.Val (inr err), w') =>
          (proxy.Val bad_gateway, with_events (L := L) w' [proxy_error err])
      | (proxy.Panic msg, w') => (proxy.Panic msg, w')
      end
  end.
Proof.
  intros Hauth Hrd w1. rewrite (ServeHTTP_hands_over _ _ _ Hauth Hrd).
  apply ReverseProxy_run.
Qed.

End ProxyFacts.

(** ** Events of a run *)

Section EventFacts.

Context {L : Type}.

Lemma events_of_trace {A : Type} (m : proxy.M (L := L) A) (w : proxy.World)
    (evs : list proxy.Event) :
  proxy.trace (m w).2 = proxy.trace w ++ evs -> events_of m w = evs.
Proof. unfold events_of. intros ->. apply drop_app_length. Qed.

Lemma events_of_unchanged {A : Type} (m : proxy.M (L := L) A) (w : proxy.World) :
  (m w).2 = w -> events_of m w = [].
Proof.
  intros E. apply events_of_trace. rewrite E. now rewrite app_nil_r.
Qed.

Lemma emitted_app (xs ys : list proxy.Event) :
  emitted (xs ++ ys) = emitted xs ++ emitted ys.
Proof. apply omap_app. Qed.

Lemma forwarded_app (xs ys : list proxy.Event) :
  forwarded (xs ++ ys) = forwarded xs ++ forwarded ys.
Proof. apply omap_app. Qed.

Lemma emitted_Upstream req (evs : list proxy.Event) :
  emitted (proxy.Upstream req :: evs) = emitted evs.
Proof. reflexivity. Qed.

Lemma emitted_Emit entry (evs : list proxy.Event) :
  emitted (proxy.Emit entry :: evs) = entry :: emitted evs.
Proof. reflexivity. Qed.

Lemma emitted_Log_cons line (evs : list proxy.Event) :
  emitted (proxy.Log line :: evs) = emitted evs.
Proof. reflexivity. Qed.

Lemma forwarded_Upstream req (evs : list proxy.Event) :
  forwarded (proxy.Upstream req :: evs) = req :: forwarded evs.
Proof. reflexivity. Qed.

Lemma forwarded_Emit entry (evs : list proxy.Event) :
  forwarded (proxy.Emit entry :: evs) = forwarded evs.
Proof. reflexivity. Qed.

Lemma forwarded_Log_cons line (evs : list proxy.Event) :
  forwarded (proxy.Log line :: evs) = forwarded evs.
Proof. reflexivity. Qed.

Lemma emitted_Log (ls : list logging.Printf) : emitted (map proxy.Log ls) = [].
Proof. induction ls; [reflexivity|assumption]. Qed.

Lemma forwarded_Log (ls : list logging.Printf) : forwarded (map proxy.Log ls) = [].
Proof. induction ls; [reflexivity|assumption]. Qed.

Lemma emitted_close_lines b format : emitted (close_lines b format) = [].
Proof. unfold close_lines. now destruct (io.close_err b). Qed.

Lemma forwarded_close_lines b format : forwarded (close_lines b format) = [].
Proof. unfold close_lines. now destruct (io.close_err b). Qed.

Lemma emitted_handler_events U r : emitted (handler_events U r) = [].
Proof.
  unfold handler_events. rewrite emitted_app, emitted_close_lines.
  now destruct (U _).
Qed.

Lemma forwarded_handler_events U r : forwarded (handler_events U r) = [].
Proof.
  unfold handler_events. rewrite forwarded_app, forwarded_close_lines.
  now destruct (U _).
Qed.

End EventFacts.

Create Rewrite HintDb events.
#[global] Hint Rewrite @emitted_app @forwarded_app @emitted_Log @forwarded_Log
  @emitted_Upstream @emitted_Emit @emitted_Log_cons
  @forwarded_Upstream @forwarded_Emit @forwarded_Log_cons
  @emitted_close_lines @forwarded_close_lines @emitted_handler_events
  @forwarded_handler_events @app_nil_r : events.

Ltac events := autorewrite with events; cbn.

(** ** The Gatekeeper *)

Lemma unauthorized_iff {L : Type} (s : proxy.Server (L := L)) (r : http.Request) :
  proxy.unauthorized s r = true <->
  proxy.apiKey s <> "" /\ http.Get (http.Header_ r) "X-API-Key" <> proxy.apiKey s.
Proof.
  unfold proxy.unauthorized.
  destruct (String.eqb_spec (proxy.apiKey s) "") as [E|E]; cbn.
  - split; [discriminate|]. now intros [? _].
  - destruct (String.eqb_spec (http.Get (http.Header_ r) "X-API-Key") (proxy.apiKey s));
      cbn; split; try discriminate; try tauto.
Qed.

Lemma absent_Get (h : http.Header) (key : string) :
  present h key = false -> http.Get h key = "".
Proof.
  unfold present, http.Get.
  now destruct (h !! textproto.CanonicalMIMEHeaderKey key) as [[|]|].
Qed.

Section GatekeeperFacts.

Context {L : Type} `{logging.Logger L}.
Variable Unmarshal : string -> option Value.
Variable prepare : http.Request -> http.Request -> http.Header + string.
Variable relay :
  http.Request -> http.Response -> proxy.Result http.Written * list logging.Printf.

(** A request that is turned away leaves the world as it is. *)
Lemma ServeHTTP_unauthorized (s : proxy.Server (L := L)) (r : http.Request)
    (w : proxy.World) :
  proxy.unauthorized s r = true ->
  proxy.ServeHTTP Unmarshal prepare relay s r w =
  (proxy.Val (http.Error "Unauthorized" http.StatusUnauthorized), w).
Proof. intros E. unfold proxy.ServeHTTP. now rewrite E. Qed.

Lemma ServeHTTP_unreadable (s : proxy.Server (L := L)) (r : http.Request)
    (w : proxy.World) (err : string) :
  proxy.unauthorized s r = false ->
  io.read_err (http.Body r) = Some err ->
  proxy.ServeHTTP Unmarshal prepare relay s r w =
  (proxy.Val (http.Error "Error reading request body" http.StatusInternalServerError), w).
Proof. intros E Hrd. unfold proxy.ServeHTTP. rewrite E. run. now rewrite Hrd. Qed.

End GatekeeperFacts.

(** ** Exchanges *)

Section ExchangeFacts.

Context {L : Type} `{logging.Logger L}.
Variable Unmarshal : string -> option Value.
Variable transport : http.Request -> http.Response + string.
Variable prepare : http.Request -> http.Request -> http.Header + string.
Variable relay :
  http.Request -> http.Response -> proxy.Result http.Written * list logging.Printf.

Local Abbreviation RoundTrip := (proxy.RoundTrip Unmarshal transport).
Local Abbreviation New := (proxy.New Unmarshal transport).
Local Abbreviation World := (proxy.World (L := L)).

(** The entries the transport emits, as a function of its input. *)
Lemma RoundTrip_emitted (req : http.Request) (w : World) :
  emitted (events_of (RoundTrip req) w) =
  match call_context (http.Ctx req), transport req with
  | Some (path, method, startTime), inl resp =>
      match io.read_err (http.RBody resp) with
      | None => [entry_of Unmarshal req resp path method startTime (proxy.clock w)]
      | Some _ => []
      end
  | _, _ => []
  end.
Proof.
  destruct (call_context (http.Ctx req)) as [[[path method] startTime]|] eqn:Hctx.
  - destruct (transport req) as [resp|err] eqn:Htr.
    + destruct (io.read_err (http.RBody resp)) as [err|] eqn:Hrd.
      * rewrite (events_of_trace _ _ [proxy.Upstream req]); [reflexivity|].
        now rewrite (RoundTrip_read_error _ _ _ _ _ _ _ Hctx Htr Hrd).
      * erewrite events_of_trace;
          [|rewrite (RoundTrip_logs _ _ _ _ _ _ _ _ Hctx Htr Hrd); reflexivity].
        events. reflexivity.
    + rewrite (events_of_trace _ _ [proxy.Upstream req]); [reflexivity|].
      now rewrite (RoundTrip_transport_error _ _ _ _ _ _ Hctx Htr).
  - destruct (RoundTrip_panics Unmarshal transport req w Hctx) as [msg E].
    rewrite events_of_unchanged; [reflexivity|now rewrite E].
Qed.

(** The value the transport returns, as a function of its input. *)
Lemma RoundTrip_outcome (req : http.Request) (w : World) c :
  call_context (http.Ctx req) = Some c ->
  outcome (RoundTrip req) w =
  proxy.Val
    match transport req with
    | inl resp =>
        match io.read_err (http.RBody resp) with
        | None => inl (proxy.set_RBody resp (io.NopCloser (io.data (http.RBody resp))))
        | Some err => inr err
        end
    | inr err => inr err
    end.
Proof.
  intros Hctx. unfold outcome.
  destruct (transport req) as [resp|err] eqn:Htr.
  - destruct (io.read_err (http.RBody resp)) as [err|] eqn:Hrd.
    + now rewrite (RoundTrip_read_error _ _ _ _ _ _ _ Hctx Htr Hrd).
    + destruct c as [[path method] startTime].
      now rewrite (RoundTrip_logs _ _ _ _ _ _ _ _ Hctx Htr Hrd).
  - now rewrite (RoundTrip_transport_error _ _ _ _ _ _ Hctx Htr).
Qed.

(** The world after an exchange whose response is read in full. *)
Lemma ServeHTTP_success_world (target : url.URL) (key : string) (r : http.Request)
    (w : World) (h : http.Header) (resp : http.Response) :
  proxy.unauthorized (New target key) r = false ->
  io.read_err (http.Body r) = None ->
  prepare (handed_over Unmarshal r (proxy.clock w))
    (directed Unmarshal target r (proxy.clock w)) = inl h ->
  transport (outgoing Unmarshal target r (proxy.clock w) h) = inl resp ->
  io.read_err (http.RBody resp) = None ->
  let outreq := outgoing Unmarshal target r (proxy.clock w) h in
  let entry := entry_of Unmarshal outreq resp (url.Path (http.URL r)) (http.Method r)
                 (proxy.clock w) (proxy.clock w + 1) in
  proxy.ServeHTTP Unmarshal prepare relay (New target key) r w =
  ((relay outreq (captured resp)).1,
   {| proxy.sink := (logging.LogRequest (proxy.sink w) entry).1;
      proxy.trace := proxy.trace w ++ handler_events Unmarshal r
        ++ proxy.Upstream outreq
        :: close_lines (http.RBody resp) "Error closing response body: %v"
        ++ proxy.Emit entry
        :: map proxy.Log (logging.LogRequest (proxy.sink w) entry).2
        ++ map proxy.Log (relay outreq (captured resp)).2;
      proxy.clock := proxy.clock w + 3 |}).
Proof.
  intros Hauth Hrd Hprep Htr Hrd' outreq entry.
  pose proof (outgoing_context Unmarshal target r (proxy.clock w) h) as Hctx.
  rewrite (ServeHTTP_run _ _ _ _ _ _ _ _ Hauth Hrd). cbv zeta. rewrite Hprep.
  rewrite (RoundTrip_logs _ _ _ _ _ _ _ _ Hctx Htr Hrd'). cbn.
  subst entry outreq. unfold with_events, captured. cbn.
  rewrite <- !app_assoc. cbn. rewrite <- !app_assoc. cbn.
  f_equal. f_equal. lia.
Qed.

(** The world after an exchange whose round trip fails. *)
Lemma ServeHTTP_failure_world (target : url.URL) (key : string) (r : http.Request)
    (w : World) (h : http.Header) (err : string) :
  proxy.unauthorized (New target key) r = false ->
  io.read_err (http.Body r) = None ->
  prepare (handed_over Unmarshal r (proxy.clock w))
    (directed Unmarshal target r (proxy.clock w)) = inl h ->
  (transport (outgoing Unmarshal target r (proxy.clock w) h) = inr err \/
   exists resp, transport (outgoing Unmarshal target r (proxy.clock w) h) = inl resp /\
                io.read_err (http.RBody resp) = Some err) ->
  proxy.ServeHTTP Unmarshal prepare relay (New target key) r w =
  (proxy.Val bad_gateway,
   {| proxy.sink := proxy.sink w;
      proxy.trace := proxy.trace w ++ handler_events Unmarshal r
        ++ [proxy.Upstream (outgoing Unmarshal target r (proxy.clock w) h);
            proxy_error err];
      proxy.clock := proxy.clock w + 1 |}).
Proof.
  intros Hauth Hrd Hprep Hfail.
  pose proof (outgoing_context Unmarshal target r (proxy.clock w) h) as Hctx.
  rewrite (ServeHTTP_run _ _ _ _ _ _ _ _ Hauth Hrd). cbv zeta. rewrite Hprep.
  destruct Hfail as [Htr|(resp & Htr & Hrd')].
  - rewrite (RoundTrip_transport_error _ _ _ _ _ _ Hctx Htr). cbn.
    unfold with_events. cbn. now rewrite <- !app_assoc.
  - rewrite (RoundTrip_read_error _ _ _ _ _ _ _ Hctx Htr Hrd'). cbn.
    unfold with_events. cbn. now rewrite <- !app_assoc.
Qed.

(** The world after an exchange that the forwarding engine refuses. *)
Lemma ServeHTTP_refused_world (target : url.URL) (key : string) (r : http.Request)
    (w : World) (err : string) :
  proxy.unauthorized (New target key) r = false ->
  io.read_err (http.Body r) = None ->
  prepare (handed_over Unmarshal r (proxy.clock w))
    (directed Unmarshal target r (proxy.clock w)) = inr err ->
  proxy.ServeHTTP Unmarshal prepare relay (New target key) r w =
  (proxy.Val bad_gateway,
   {| proxy.sink := proxy.sink w;
      proxy.trace := proxy.trace w ++ handler_events Unmarshal r ++ [proxy_error err];
      proxy.clock := proxy.clock w + 1 |}).
Proof.
  intros Hauth Hrd Hprep.
  rewrite (ServeHTTP_run _ _ _ _ _ _ _ _ Hauth Hrd). cbv zeta. rewrite Hprep.
  unfold with_events. cbn. now rewrite <- !app_assoc.
Qed.

(** Every exchange goes one of the five ways. *)
Lemma ServeHTTP_cases (target : url.URL) (key : string) (r : http.Request) (w : World) :
  Exchange Unmarshal transport prepare relay target key r w.
Proof.
  destruct (proxy.unauthorized (New target key) r) eqn:Hauth.
  - apply turned_away; [assumption|]. now apply ServeHTTP_unauthorized.
  - destruct (io.read_err (http.Body r)) as [err|] eqn:Hrd.
    + apply (unreadable _ _ _ _ _ _ _ _ err); [assumption..|].
      now apply (ServeHTTP_unreadable _ _ _ _ _ _ err).
    + destruct (prepare (handed_over Unmarshal r (proxy.clock w))
                  (directed Unmarshal target r (proxy.clock w))) as [h|err] eqn:Hprep.
      * destruct (transport (outgoing Unmarshal target r (proxy.clock w) h))
          as [resp|err] eqn:Htr.
        -- destruct (io.read_err (http.RBody resp)) as [err|] eqn:Hrd'.
           ++ apply (failed _ _ _ _ _ _ _ _ h err); [assumption..| |].
              ** right. now exists resp.
              ** apply ServeHTTP_failure_world; [assumption..|]. right. now exists resp.
           ++ apply (completed _ _ _ _ _ _ _ _ h resp); [assumption..|].
              now apply ServeHTTP_success_world.
        -- apply (failed _ _ _ _ _ _ _ _ h err); [assumption..| |].
           ++ now left.
           ++ apply ServeHTTP_failure_world; [assumption..|]. now left.
      * apply (refused _ _ _ _ _ _ _ _ err); [assumption..|].
        now apply ServeHTTP_refused_world.
Qed.

(** How the handler ends is a function of the request, the upstream, the
    forwarding engine and the clock. *)
Lemma ServeHTTP_outcome (target : url.URL) (key : string) (r : http.Request) (w : World) :
  outcome (proxy.ServeHTTP Unmarshal prepare relay (New target key) r) w =
  answer Unmarshal transport prepare relay target key r (proxy.clock w).
Proof.
  unfold answer, outcome.
  change (negb (String.eqb key "") &&
          negb (String.eqb (http.Get (http.Header_ r) "X-API-Key") key))%bool
    with (proxy.unauthorized (New target key) r).
  destruct (ServeHTTP_cases target key r w)
    as [Hauth E|err Hauth Hrd E|err Hauth Hrd Hprep E|h err Hauth Hrd Hprep Hfail E
        |h resp Hauth Hrd Hprep Htr Hrd' E];
    cbv zeta in E; rewrite E, Hauth; cbn [fst]; try rewrite Hrd; try rewrite Hprep;
    try reflexivity.
  - destruct Hfail as [Htr|(resp & Htr & Hrd')]; rewrite Htr; [reflexivity|].
    now rewrite Hrd'.
  - now rewrite Htr, Hrd'.
Qed.

End ExchangeFacts.

Ltac exchange_events E :=
  erewrite events_of_trace by (rewrite E; cbn [snd proxy.trace]; reflexivity).

(** ** Byte preservation *)




(** ** Records and responses *)

(** C2 (amended).  For every request that reaches the transport with its
    Call Context, an entry is emitted (handed to the Log Sink) if and only if the upstream returns a
    response and the body of that response is read without error.  An
    error of the round trip, or of reading the body, is returned as it is
    and no entry is emitted; a request that the forwarding engine has
    accepted and whose round trip fails in either way is answered 502 by
    the engine, without an entry. *)
Theorem record_iff_response_read :
  (forall (L : Type) (H : logging.Logger L)
          (Unmarshal : string -> option Value)
          (transport : http.Request -> http.Response + string)
          (req : http.Request) (w : proxy.World (L := L)) c,
      call_context (http.Ctx req) = Some c ->
      ((exists entry,
           emitted (events_of (proxy.RoundTrip Unmarshal transport req) w) = [entry]) <->
       (exists resp, transport req = inl resp /\ io.read_err (http.RBody resp) = None))
      /\ (forall err,
             transport req = inr err \/
             (exists resp, transport req = inl resp /\
                           io.read_err (http.RBody resp) = Some err) ->
             outcome (proxy.RoundTrip Unmarshal transport req) w = proxy.Val (inr err)
             /\ emitted (events_of (proxy.RoundTrip Unmarshal transport req) w) = []))
  /\ (forall (L : Type) (H : logging.Logger L)
             (Unmarshal : string -> option Value)
             (transport : http.Request -> http.Response + string)
             (prepare : http.Request -> http.Request -> http.Header + string)
             (relay : http.Request -> http.Response ->
                      proxy.Result http.Written * list logging.Printf)
             (target : url.URL) (key : string) (r : http.Request)
             (w : proxy.World (L := L)) (h : http.Header) (err : string),
         let s := proxy.New Unmarshal transport target key in
         proxy.unauthorized s r = false ->
         io.read_err (http.Body r) = None ->
         prepare (handed_over Unmarshal r (proxy.clock w))
           (directed Unmarshal target r (proxy.clock w)) = inl h ->
         (transport (outgoing Unmarshal target r (proxy.clock w) h) = inr err \/
          exists resp,
            transport (outgoing Unmarshal target r (proxy.clock w) h) = inl resp /\
            io.read_err (http.RBody resp) = Some err) ->
         outcome (proxy.ServeHTTP Unmarshal prepare relay s r) w = proxy.Val bad_gateway
         /\ emitted (events_of (proxy.ServeHTTP Unmarshal prepare relay s r) w) = []).
Proof.
  split.
  - intros L H U transport req w c Hctx.
    pose proof (RoundTrip_emitted U transport req w) as Hem.
    pose proof (RoundTrip_outcome U transport req w c Hctx) as Hout.
    rewrite Hctx in Hem. destruct c as [[path method] startTime].
    split; [split|].
    + intros [entry Hentry]. rewrite Hentry in Hem.
      destruct (transport req) as [resp|]; [|discriminate].
      destruct (io.read_err (http.RBody resp)) eqn:Hrd; [discriminate|].
      now exists resp.
    + intros (resp & Htr & Hrd). rewrite Htr, Hrd in Hem. eexists. exact Hem.
    + intros err [Htr|(resp & Htr & Hrd)];
        rewrite Htr in Hem, Hout; rewrite ?Hrd in Hem, Hout; now split.
  - intros L H U transport prepare relay target key r w h err s Hauth Hrd Hprep Hfail.
    pose proof (ServeHTTP_failure_world U transport prepare relay target key r w h err
                  Hauth Hrd Hprep Hfail) as E.
    subst s. split.
    + unfold outcome. now rewrite E.
    + exchange_events E. events. reflexivity.
Qed.

Lemma record_of_a_streamed_response :
  exists entry,
    emitted (events_of (proxy.RoundTrip json.Unmarshal upstream_streams
                          (request_with handler_context))
               (start (L := list logging.Entry) [])) = [entry].
Proof.
  apply (proj1 (record_iff_response_read) (list logging.Entry) Recorder json.Unmarshal
           upstream_streams (request_with handler_context) (start [])
           ("/chat", "POST", 0%Z) eq_refl).
  exists stream_response. split; reflexivity.
Defined.

(** C2 as stated fails: the upstream returns a response, its body breaks
    while it is read, and no entry is emitted. *)
Lemma broken_response_body_emits_no_record :
  let req := request_with handler_context in
  let w := start (L := list logging.Entry) [] in
  call_context (http.Ctx req) = Some ("/chat", "POST", 0%Z)
  /\ upstream_breaks req = inl broken_response
  /\ emitted (events_of (proxy.RoundTrip json.Unmarshal upstream_breaks req) w) = []
  /\ outcome (proxy.RoundTrip json.Unmarshal upstream_breaks req) w
     = proxy.Val (inr "unexpected EOF").
Proof.
  cbv zeta. split; [reflexivity|]. split; [reflexivity|].
  split; vm_compute; reflexivity.
Qed.

(** ** The stream marker *)

Lemma Split_nonempty (s : string) (sep : ascii) : strings.Split s sep <> [].
Proof.
  destruct s as [|c s]; cbn; [discriminate|].
  destruct (Ascii.eqb c sep); [discriminate|].
  destruct (strings.Split s sep); discriminate.
Qed.

(** The first piece of a split is a prefix of the text. *)
Lemma Split_head_prefix (s : string) (sep : ascii) (piece : string) (rest : list string)
    (prefix : string) :
  strings.Split s sep = piece :: rest ->
  strings.HasPrefix piece prefix = true ->
  strings.HasPrefix s prefix = true.
Proof.
  revert piece rest prefix.
  induction s as [|c s IH]; intros piece rest prefix; cbn.
  - now intros [= <- <-].
  - destruct (Ascii.eqb c sep).
    + intros [= <- <-]. now destruct prefix.
    + destruct (strings.Split s sep) as [|piece' rest'] eqn:E.
      * now destruct (Split_nonempty s sep).
      * intros [= <- <-]. destruct prefix as [|p prefix]; [reflexivity|]. cbn.
        intros [-> Hp]%andb_prop. apply andb_true_intro; split; [reflexivity|].
        exact (IH _ _ _ eq_refl Hp).
Qed.

Lemma Contains_cons (c : ascii) (s substr : string) :
  strings.Contains s substr = true -> strings.Contains (String c s) substr = true.
Proof. intros E. cbn [strings.Contains]. rewrite E. apply orb_true_r. Qed.

Lemma HasPrefix_Contains (s substr : string) :
  strings.HasPrefix s substr = true -> strings.Contains s substr = true.
Proof. intros E. destruct s; cbn [strings.Contains]; now rewrite E. Qed.

(** A line that begins with a prefix puts the prefix into the text. *)
Lemma line_prefix_Contains (s : string) (sep : ascii) (prefix : string) :
  existsb (fun line => strings.HasPrefix line prefix) (strings.Split s sep) = true ->
  strings.Contains s prefix = true.
Proof.
  induction s as [|c s IH]; cbn [strings.Split].
  - cbn [existsb]. rewrite orb_false_r. apply HasPrefix_Contains.
  - destruct (Ascii.eqb c sep) eqn:Ec.
    + cbn [existsb]. intros [Hp|Hrest]%orb_prop.
      * destruct prefix; [reflexivity|discriminate].
      * apply Contains_cons, IH, Hrest.
    + destruct (strings.Split s sep) as [|piece rest] eqn:E.
      * now destruct (Split_nonempty s sep).
      * cbn [existsb]. intros [Hp|Hrest]%orb_prop.
        -- apply HasPrefix_Contains.
           apply (Split_head_prefix (String c s) sep (String c piece) rest prefix);
             [|exact Hp].
           cbn [strings.Split]. now rewrite Ec, E.
        -- apply Contains_cons, IH. cbn [existsb]. rewrite Hrest. apply orb_true_r.
Qed.

Section EntryFacts.

Context {L : Type} `{logging.Logger L}.
Variable Unmarshal : string -> option Value.
Variable transport : http.Request -> http.Response + string.

(** The entry of a run that emits one is the entry built from the
    response the upstream returned. *)
Lemma RoundTrip_emitted_inv (req : http.Request) (w : proxy.World (L := L))
    (resp : http.Response) (entry : logging.Entry) :
  transport req = inl resp ->
  emitted (events_of (proxy.RoundTrip Unmarshal transport req) w) = [entry] ->
  exists path method startTime,
    call_context (http.Ctx req) = Some (path, method, startTime)
    /\ io.read_err (http.RBody resp) = None
    /\ entry = entry_of Unmarshal req resp path method startTime (proxy.clock w).
Proof.
  intros Htr. rewrite RoundTrip_emitted, Htr.
  destruct (call_context (http.Ctx req)) as [[[path method] startTime]|];
    [|discriminate].
  destruct (io.read_err (http.RBody resp)); [discriminate|].
  intros [= <-]. now exists path, method, startTime.
Qed.

End EntryFacts.

(** C3 (amended).  The response payload of an emitted entry is the parsed
    value when the body parses as JSON; the Stream Reconstructor's result
    when it does not parse and holds the bytes [data: ] anywhere, which is
    the case whenever a line begins with them; the body as text when it
    does not parse and holds them nowhere. *)
Theorem logged_response_payload :
  forall (L : Type) (H : logging.Logger L)
         (Unmarshal : string -> option Value)
         (transport : http.Request -> http.Response + string)
         (req : http.Request) (w : proxy.World (L := L))
         (resp : http.Response) (entry : logging.Entry),
    transport req = inl resp ->
    emitted (events_of (proxy.RoundTrip Unmarshal transport req) w) = [entry] ->
    let bodyBytes := io.data (http.RBody resp) in
    (forall v, Unmarshal bodyBytes = Some v -> logging.Response entry = v)
    /\ (Unmarshal bodyBytes = None ->
        strings.Contains bodyBytes "data: " = true ->
        logging.Response entry = processStreamingResponse Unmarshal bodyBytes)
    /\ (Unmarshal bodyBytes = None ->
        strings.Contains bodyBytes "data: " = false ->
        logging.Response entry = VString bodyBytes)
    /\ (has_marker_line bodyBytes = true -> strings.Contains bodyBytes "data: " = true).
Proof.
  intros L H U transport req w resp entry Htr Hem bodyBytes.
  destruct (RoundTrip_emitted_inv U transport req w resp entry Htr Hem)
    as (path & method & startTime & _ & _ & ->).
  cbn [entry_of logging.Response]. unfold proxy.responseBody_of. fold bodyBytes.
  repeat split.
  - now intros v ->.
  - now intros -> ->.
  - now intros -> ->.
  - apply line_prefix_Contains.
Qed.

Lemma logged_payload_of_a_stream :
  let req := request_with handler_context in
  let entry := entry_of json.Unmarshal req stream_response "/chat" "POST" 0 0 in
  emitted (events_of (proxy.RoundTrip json.Unmarshal upstream_streams req)
             (start (L := list logging.Entry) [])) = [entry]
  /\ json.Unmarshal example_stream = None
  /\ strings.Contains example_stream "data: " = true
  /\ logging.Response entry = processStreamingResponse json.Unmarshal example_stream.
Proof.
  intros req entry.
  assert (emitted (events_of (proxy.RoundTrip json.Unmarshal upstream_streams req)
                     (start (L := list logging.Entry) [])) = [entry]) as Hem
    by (vm_compute; reflexivity).
  split; [exact Hem|]. split; [vm_compute; reflexivity|]. split; [vm_compute; reflexivity|].
  apply (proj1 (proj2 (logged_response_payload (list logging.Entry) Recorder json.Unmarshal
           upstream_streams req (start []) stream_response entry eq_refl Hem)));
    vm_compute; reflexivity.
Defined.

(** C3 as stated fails: a body that does not parse and holds [data: ] in
    the middle of a line, with no line beginning with it, is logged as a
    reconstructed payload and not as text. *)
Lemma substring_marker_is_reconstructed :
  let bodyBytes := "metadata: none" in
  let req := request_with handler_context in
  json.Unmarshal bodyBytes = None
  /\ has_marker_line bodyBytes = false
  /\ exists entry,
       emitted (events_of (proxy.RoundTrip json.Unmarshal (upstream_says bodyBytes) req)
                  (start (L := list logging.Entry) [])) = [entry]
       /\ logging.Response entry = reconstructed ""
       /\ logging.Response entry <> VString bodyBytes.
Proof.
  cbv zeta. split; [vm_compute; reflexivity|]. split; [vm_compute; reflexivity|].
  eexists. split; [vm_compute; reflexivity|].
  split; [vm_compute; reflexivity|discriminate].
Qed.

(** ** The Gatekeeper *)


(** C5 (amended).  With a non-empty key configured, a request whose
    [X-API-Key] header is missing or differs from the key is answered 401
    and the world is left as it is: nothing is forwarded, emitted, printed
    or read from the clock.  With no key configured, every request whose
    body is read without error is handed to the forwarding engine,
    whatever its headers; it is forwarded, once, unless the engine
    refuses it, and then it is answered 502. *)
Theorem gatekeeper_authentication :
  forall (L : Type) (H : logging.Logger L)
         (Unmarshal : string -> option Value)
         (transport : http.Request -> http.Response + string)
         (prepare : http.Request -> http.Request -> http.Header + string)
         (relay : http.Request -> http.Response ->
                  proxy.Result http.Written * list logging.Printf)
         (target : url.URL) (key : string) (r : http.Request)
         (w : proxy.World (L := L)),
    let s := proxy.New Unmarshal transport target key in
    let exchange := proxy.ServeHTTP Unmarshal prepare relay s r in
    (key <> "" ->
     present (http.Header_ r) "X-API-Key" = false \/
     http.Get (http.Header_ r) "X-API-Key" <> key ->
     exchange w = (proxy.Val (http.Error "Unauthorized" http.StatusUnauthorized), w)
     /\ events_of exchange w = [])
    /\ (key = "" ->
        io.read_err (http.Body r) = None ->
        exchange w
        = proxy.ReverseProxy_ServeHTTP prepare relay (proxy.proxy s)
            (handed_over Unmarshal r (proxy.clock w))
            {| proxy.sink := proxy.sink w;
               proxy.trace := proxy.trace w ++ handler_events Unmarshal r;
               proxy.clock := proxy.clock w + 1 |}
        /\ match prepare (handed_over Unmarshal r (proxy.clock w))
                   (directed Unmarshal target r (proxy.clock w)) with
           | inl h =>
               forwarded (events_of exchange w)
               = [outgoing Unmarshal target r (proxy.clock w) h]
           | inr _ =>
               forwarded (events_of exchange w) = []
               /\ outcome exchange w = proxy.Val bad_gateway
           end).
Proof.
  intros L H U transport prepare relay target key r w s exchange. subst exchange. split.
  - intros Hkey Hbad.
    assert (proxy.unauthorized s r = true) as Hun.
    { apply unauthorized_iff. split; [exact Hkey|].
      destruct Hbad as [Habs|Hne]; [|exact Hne].
      cbn. rewrite (absent_Get _ _ Habs). congruence. }
    pose proof (ServeHTTP_unauthorized U prepare relay s r w Hun) as E.
    split; [exact E|]. apply events_of_unchanged. now rewrite E.
  - intros -> Hrd.
    assert (proxy.unauthorized s r = false) as Hauth by reflexivity.
    split; [exact (ServeHTTP_hands_over U prepare relay s r w Hauth Hrd)|].
    subst s.
    destruct (ServeHTTP_cases U transport prepare relay target "" r w)
      as [Hun E|err _ Hrd0 E|err _ _ Hprep E|h err _ _ Hprep Hfail E
          |h resp _ _ Hprep Htr Hrd' E];
      cbv zeta in E; try congruence; rewrite Hprep.
    + split; [exchange_events E; events; reflexivity|].
      unfold outcome. now rewrite E.
    + exchange_events E. events. reflexivity.
    + exchange_events E. events. reflexivity.
Qed.

Lemma wrong_key_is_turned_away :
  let s := proxy.New (L := list logging.Entry) json.Unmarshal upstream_streams azure "secret" in
  let r := chat_request wrong_header say_hello in
  let w := start (L := list logging.Entry) [] in
  proxy.ServeHTTP json.Unmarshal plain_prepare plain_relay s r w =
    (proxy.Val (http.Error "Unauthorized" http.StatusUnauthorized), w)
  /\ events_of (proxy.ServeHTTP json.Unmarshal plain_prepare plain_relay s r) w = [].
Proof.
  apply (proj1 (gatekeeper_authentication (list logging.Entry) Recorder json.Unmarshal
                  upstream_streams plain_prepare plain_relay azure "secret"
                  (chat_request wrong_header say_hello) (start []))).
  - discriminate.
  - right. vm_compute. discriminate.
Defined.

(** C5 as stated fails, twice, with no key configured.  A request whose
    body cannot be read is answered 500 and is not forwarded.  And a
    request that asks the forwarding engine for a switch to a protocol
    whose name cannot be printed is answered 502 and is not forwarded:
    the headers matter. *)
Lemma unreadable_body_is_not_forwarded :
  let w := start (L := list logging.Entry) [] in
  let s := proxy.New (L := list logging.Entry) json.Unmarshal upstream_streams azure "" in
  proxy.apiKey s = ""
  /\ (let r := chat_request ∅ broken_body in
      let exchange := proxy.ServeHTTP json.Unmarshal plain_prepare plain_relay s r in
      forwarded (events_of exchange w) = []
      /\ outcome exchange w
         = proxy.Val (http.Error "Error reading request body"
                        http.StatusInternalServerError))
  /\ (let r := chat_request switching_header say_hello in
      let exchange := proxy.ServeHTTP json.Unmarshal checking_prepare plain_relay s r in
      io.read_err (http.Body r) = None
      /\ forwarded (events_of exchange w) = []
      /\ outcome exchange w = proxy.Val bad_gateway
      /\ forwarded (events_of (proxy.ServeHTTP json.Unmarshal checking_prepare plain_relay s
                                 (chat_request ∅ say_hello)) w) <> []).
Proof.
  cbv zeta. split; [reflexivity|]. split.
  - split; vm_compute; reflexivity.
  - split; [reflexivity|]. split; [vm_compute; reflexivity|].
    split; [vm_compute; reflexivity|]. vm_compute. discriminate.
Qed.

(** ** Isolation of the Log Sink *)

Lemma Encode_failure_keeps_file (Marshal : logging.Entry -> string + string)
    (f : logging.File) (entry : logging.Entry) (err : string) :
  (logging.Encode Marshal f entry).2 = Some err ->
  (logging.Encode Marshal f entry).1 = f.
Proof.
  unfold logging.Encode, logging.File_Write.
  destruct (Marshal entry); [|reflexivity].
  destruct (logging.closed f); [reflexivity|].
  destruct (logging.write_fault f); [reflexivity|discriminate].
Qed.

(** C6.  A failure of the Log Sink never reaches the request path: the
    client is written the same status, headers and body whatever logger
    serves the exchange and whatever state it is in, so whether it emits
    its entry or fails; and a [FileLogger] whose encoding or write fails
    keeps its file as it was and prints one line to the process log. *)
Theorem logging_failure_is_isolated :
  (forall (L1 L2 : Type) (H1 : logging.Logger L1) (H2 : logging.Logger L2)
          (Unmarshal : string -> option Value)
          (transport : http.Request -> http.Response + string)
          (prepare : http.Request -> http.Request -> http.Header + string)
          (relay : http.Request -> http.Response ->
                   proxy.Result http.Written * list logging.Printf)
          (target : url.URL) (key : string) (r : http.Request)
          (sink1 : L1) (sink2 : L2) (trace1 trace2 : list proxy.Event) (now : Z),
      outcome (proxy.ServeHTTP Unmarshal prepare relay
                 (proxy.New Unmarshal transport target key) r)
        {| proxy.sink := sink1; proxy.trace := trace1; proxy.clock := now |}
      = outcome (proxy.ServeHTTP Unmarshal prepare relay
                   (proxy.New Unmarshal transport target key) r)
          {| proxy.sink := sink2; proxy.trace := trace2; proxy.clock := now |})
  /\ (forall (Marshal : logging.Entry -> string + string) (f : logging.File)
             (entry : logging.Entry) (err : string),
         (logging.Encode Marshal f entry).2 = Some err ->
         logging.FileLogger_LogRequest Marshal {| logging.file := Some f |} entry
         = ({| logging.file := Some f |},
            [{| logging.format := "Error encoding log entry: %v";
                logging.args := [logging.AError err] |}])).
Proof.
  split.
  - intros. now rewrite !ServeHTTP_outcome.
  - intros Marshal f entry err Herr.
    pose proof (Encode_failure_keeps_file Marshal f entry err Herr) as Hf.
    unfold logging.FileLogger_LogRequest. cbn [logging.file].
    destruct (logging.Encode Marshal f entry) as [f' [e|]]; cbn in *; congruence.
Qed.

Lemma full_disk_is_reported_locally :
  (logging.Encode one_line full_disk_log hello_entry).2 = Some "no space left on device"
  /\ logging.FileLogger_LogRequest one_line {| logging.file := Some full_disk_log |} hello_entry
     = ({| logging.file := Some full_disk_log |},
        [{| logging.format := "Error encoding log entry: %v";
            logging.args := [logging.AError "no space left on device"] |}]).
Proof.
  split; [reflexivity|].
  apply (proj2 logging_failure_is_isolated one_line full_disk_log hello_entry). reflexivity.
Defined.

(** ** Correlation ids *)

Lemma correlationID_first_nonempty (h : http.Header) :
  proxy.correlationID_of h = first_nonempty h correlation_headers.
Proof.
  unfold proxy.correlationID_of, correlation_headers, first_nonempty.
  destruct (String.eqb (http.Get h "apim-request-id") ""); [|reflexivity].
  destruct (String.eqb_spec (http.Get h "x-ms-request-id") ""); [|reflexivity].
  destruct (String.eqb_spec (http.Get h "x-ms-correlation-request-id") ""); congruence.
Qed.

Lemma first_nonempty_absent (h : http.Header) (keys : list string) :
  forallb (fun key => negb (present h key)) keys = true ->
  first_nonempty h keys = "".
Proof.
  induction keys as [|key keys IH]; cbn; [reflexivity|].
  intros [Hkey Hrest]%andb_prop. apply negb_true_iff in Hkey.
  rewrite (absent_Get _ _ Hkey). cbn. now apply IH.
Qed.

Lemma first_nonempty_present (h : http.Header) (keys : list string) :
  forallb (fun key => negb (present h key) || negb (String.eqb (http.Get h key) "")) keys
  = true ->
  first_nonempty h keys = first_present h keys.
Proof.
  induction keys as [|key keys IH]; cbn; [reflexivity|].
  intros [Hkey Hrest]%andb_prop. rewrite (IH Hrest).
  destruct (present h key) eqn:Hp; cbn in Hkey.
  - apply negb_true_iff in Hkey. now rewrite Hkey.
  - now rewrite (absent_Get _ _ Hp).
Qed.

(** C7 (amended).  The correlation id of an emitted entry is the first
    value that is not empty among the first values of [apim-request-id],
    [x-ms-request-id] and [x-ms-correlation-request-id], in that order, and
    is empty when there is none: so it is empty when all three headers are
    absent, and it is the value of the first present header whenever no
    present header has an empty value. *)
Theorem correlation_id_priority :
  forall (L : Type) (H : logging.Logger L)
         (Unmarshal : string -> option Value)
         (transport : http.Request -> http.Response + string)
         (req : http.Request) (w : proxy.World (L := L))
         (resp : http.Response) (entry : logging.Entry),
    transport req = inl resp ->
    emitted (events_of (proxy.RoundTrip Unmarshal transport req) w) = [entry] ->
    let h := http.RHeader resp in
    logging.CorrelationID entry = first_nonempty h correlation_headers
    /\ (forallb (fun key => negb (present h key)) correlation_headers = true ->
        logging.CorrelationID entry = "")
    /\ (forallb (fun key => negb (present h key) || negb (String.eqb (http.Get h key) ""))
          correlation_headers = true ->
        logging.CorrelationID entry = first_present h correlation_headers).
Proof.
  intros L H U transport req w resp entry Htr Hem h.
  destruct (RoundTrip_emitted_inv U transport req w resp entry Htr Hem)
    as (path & method & startTime & _ & _ & ->).
  cbn [entry_of logging.CorrelationID]. fold h.
  rewrite correlationID_first_nonempty. split; [reflexivity|split].
  - apply first_nonempty_absent.
  - apply first_nonempty_present.
Qed.

Lemma correlation_id_of_a_stream :
  let req := request_with handler_context in
  let entry := entry_of json.Unmarshal req stream_response "/chat" "POST" 0 0 in
  emitted (events_of (proxy.RoundTrip json.Unmarshal upstream_streams req)
             (start (L := list logging.Entry) [])) = [entry]
  /\ logging.CorrelationID entry = "7c1e".
Proof.
  intros req entry.
  assert (emitted (events_of (proxy.RoundTrip json.Unmarshal upstream_streams req)
                     (start (L := list logging.Entry) [])) = [entry]) as Hem
    by (vm_compute; reflexivity).
  split; [exact Hem|].
  rewrite (proj1 (correlation_id_priority (list logging.Entry) Recorder json.Unmarshal
             upstream_streams req (start []) stream_response entry eq_refl Hem)).
  vm_compute. reflexivity.
Defined.

(** C7 as stated fails: the primary header is present with an empty
    value, and the entry carries the value of the first fallback. *)
Lemma empty_primary_header_is_skipped :
  let req := request_with handler_context in
  present empty_primary "apim-request-id" = true
  /\ first_present empty_primary correlation_headers = ""
  /\ exists entry,
       emitted (events_of (proxy.RoundTrip json.Unmarshal (upstream_with empty_primary) req)
                  (start (L := list logging.Entry) [])) = [entry]
       /\ logging.CorrelationID entry = "abc".
Proof.
  cbv zeta. split; [vm_compute; reflexivity|]. split; [vm_compute; reflexivity|].
  eexists. split; vm_compute; reflexivity.
Qed.

(** ** The Call Context *)

Lemma unbound_Value (ctx : context.Context) (key : contextKey) :
  bound ctx key = false -> context.Value_ ctx key = VNil.
Proof.
  induction ctx as [|[k v] ctx IH]; cbn; [reflexivity|].
  intros [Hk Hrest]%orb_false_elim. apply bool_decide_eq_false in Hk.
  destruct (decide (k = key)); [contradiction|]. now apply IH.
Qed.

Lemma unbound_call_context (ctx : context.Context) :
  bound ctx pathKey = false \/ bound ctx methodKey = false \/ bound ctx startTimeKey = false ->
  call_context ctx = None.
Proof.
  unfold call_context.
  intros [Hb|[Hb|Hb]]; rewrite (unbound_Value _ _ Hb);
    repeat match goal with |- context [match ?v with _ => _ end] => destruct v end;
    reflexivity.
Qed.

(** The panic of a failed assertion is not the one that gives a request
    up on purpose. *)
Lemma RoundTrip_panic_message {L : Type} `{logging.Logger L}
    (Unmarshal : string -> option Value)
    (transport : http.Request -> http.Response + string)
    (req : http.Request) (w : proxy.World (L := L)) :
  call_context (http.Ctx req) = None ->
  exists msg,
    String.eqb msg ErrAbortHandler = false
    /\ proxy.RoundTrip Unmarshal transport req w = (proxy.Panic msg, w).
Proof.
  unfold call_context, proxy.RoundTrip. intros Hctx.
  destruct (context.Value_ (http.Ctx req) pathKey);
    try (eexists; split; [|reflexivity]; reflexivity).
  destruct (context.Value_ (http.Ctx req) methodKey);
    try (eexists; split; [|reflexivity]; reflexivity).
  destruct (context.Value_ (http.Ctx req) startTimeKey);
    try (eexists; split; [|reflexivity]; reflexivity).
  discriminate.
Qed.

(** C8 (amended).  When the path, the method or the start time is absent
    from the request context, the transport fails that request rather
    than crashing the process, and does not tolerate the absence: it
    panics at once and leaves the world as it is, so the upstream is not
    called and nothing is emitted; the panic passes through the forwarding
    engine to the server that runs the handler, which recovers it, prints
    it and drops the connection.  With these three present the transport
    returns, with or without a request body in the context; an absent
    request body is logged as [nil]. *)
Theorem missing_call_context :
  forall (L : Type) (H : logging.Logger L)
         (Unmarshal : string -> option Value)
         (transport : http.Request -> http.Response + string)
         (prepare : http.Request -> http.Request -> http.Header + string)
         (relay : http.Request -> http.Response ->
                  proxy.Result http.Written * list logging.Printf)
         (target : url.URL) (key : string)
         (req : http.Request) (w : proxy.World (L := L)),
    let ctx := http.Ctx req in
    let engine :=
      proxy.ReverseProxy_ServeHTTP prepare relay
        (proxy.proxy (proxy.New Unmarshal transport target key)) in
    (bound ctx pathKey = false \/ bound ctx methodKey = false \/
     bound ctx startTimeKey = false ->
     (exists msg, proxy.RoundTrip Unmarshal transport req w = (proxy.Panic msg, w))
     /\ (forall h,
           prepare req (proxy.director target req) = inl h ->
           exists msg,
             engine req w = (proxy.Panic msg, w)
             /\ serve_conn engine req w
                = (proxy.Val Dropped, with_events w [panic_line msg])))
    /\ (forall c, call_context ctx = Some c ->
          exists res, outcome (proxy.RoundTrip Unmarshal transport req) w = proxy.Val res)
    /\ (forall entry,
          bound ctx requestBodyKey = false ->
          emitted (events_of (proxy.RoundTrip Unmarshal transport req) w) = [entry] ->
          logging.RequestBody entry = VNil).
Proof.
  intros L H U transport prepare relay target key req w ctx engine. split; [|split].
  - intros Hb. apply unbound_call_context in Hb. split.
    + now apply RoundTrip_panics.
    + intros h Hprep.
      destruct (RoundTrip_panic_message U transport
                  (proxy.set_Header (proxy.director target req) h) w Hb) as (msg & Hmsg & E).
      exists msg.
      assert (engine req w = (proxy.Panic msg, w)) as Ee.
      { subst engine. rewrite ReverseProxy_run. cbn [proxy.proxy proxy.New proxy.Director
          proxy.Transport]. rewrite Hprep. cbv zeta. now rewrite E. }
      split; [exact Ee|]. unfold serve_conn. now rewrite Ee, Hmsg.
  - intros c Hctx. eexists. exact (RoundTrip_outcome U transport req w c Hctx).
  - intros entry Hb Hem.
    pose proof (RoundTrip_emitted U transport req w) as E. rewrite Hem in E.
    destruct (call_context (http.Ctx req)) as [[[path method] startTime]|];
      [|discriminate].
    destruct (transport req) as [resp|]; [|discriminate].
    destruct (io.read_err (http.RBody resp)); [discriminate|].
    injection E as ->. cbn [entry_of logging.RequestBody].
    apply unbound_Value, Hb.
Qed.

Lemma pathless_request_panics :
  let engine :=
    proxy.ReverseProxy_ServeHTTP plain_prepare plain_relay
      (proxy.proxy (proxy.New (L := list logging.Entry) json.Unmarshal upstream_streams
                      azure "")) in
  (exists msg,
      proxy.RoundTrip json.Unmarshal upstream_streams (request_with [])
        (start (L := list logging.Entry) [])
      = (proxy.Panic msg, start []))
  /\ exists msg,
       engine (request_with []) (start []) = (proxy.Panic msg, start [])
       /\ serve_conn engine (request_with []) (start [])
          = (proxy.Val Dropped, with_events (start []) [panic_line msg]).
Proof.
  cbv zeta.
  destruct (proj1 (missing_call_context (list logging.Entry) Recorder json.Unmarshal
                     upstream_streams plain_prepare plain_relay azure ""
                     (request_with []) (start []))
              (or_introl eq_refl)) as [Hpanic Hserved].
  split; [exact Hpanic|]. exact (Hserved _ eq_refl).
Defined.

(** C8 as stated fails: a context without the request body is
    tolerated; the transport returns the response and emits an entry. *)
Lemma missing_request_body_is_tolerated :
  let req := request_with bodyless_context in
  let w := start (L := list logging.Entry) [] in
  bound (http.Ctx req) requestBodyKey = false
  /\ (exists resp,
        outcome (proxy.RoundTrip json.Unmarshal upstream_streams req) w
        = proxy.Val (inl resp))
  /\ exists entry,
       emitted (events_of (proxy.RoundTrip json.Unmarshal upstream_streams req) w) = [entry]
       /\ logging.RequestBody entry = VNil.
Proof.
  cbv zeta. split; [reflexivity|]. split.
  - eexists. vm_compute. reflexivity.
  - eexists. split; vm_compute; reflexivity.
Qed.

(** ** Closing the Log Sink *)

(** C9 (amended).  A second [Close] leaves the Log Sink in the state the
    first left it in; on a sink that has a file it prints one more line to
    the process log, the error of closing a file that is closed already,
    and on a sink without a file it prints nothing. *)
Theorem Close_twice :
  forall l : logging.FileLogger,
    (logging.FileLogger_Close (logging.FileLogger_Close l).1).1
    = (logging.FileLogger_Close l).1
    /\ (logging.FileLogger_Close (logging.FileLogger_Close l).1).2
       = match logging.file l with
         | Some _ => [already_closed]
         | None => []
         end.
Proof.
  intros [[f|]]; [|split; reflexivity].
  unfold logging.FileLogger_Close, logging.File_Close. cbn [logging.file].
  destruct (logging.closed f) eqn:E; cbn; rewrite ?E; cbn; split; reflexivity.
Qed.

(** C9 as stated fails: the second [Close] has an effect of its own, a
    line in the process log. *)
Lemma second_Close_prints_an_error :
  let l := {| logging.file := Some open_log |} in
  (logging.FileLogger_Close l).2 = []
  /\ (logging.FileLogger_Close (logging.FileLogger_Close l).1).2 = [already_closed]
  /\ logging.FileLogger_Close (logging.FileLogger_Close l).1
     <> ((logging.FileLogger_Close l).1, []).
Proof.
  cbv zeta. split; [reflexivity|]. split; [reflexivity|]. discriminate.
Qed.
(** * Further results *)

(** ** Configuration *)

Lemma getEnvOrDefault_empty (env : gmap string string) (key defaultVal : string) :
  config.getEnvOrDefault env key defaultVal = "" -> defaultVal = "".
Proof.
  unfold config.getEnvOrDefault.
  destruct (env !! key) as [val|]; [|easy].
  destruct (String.eqb_spec val ""); cbn; congruence.
Qed.

(** X1.  Whatever the environment holds, the endpoint, the listen address
    and the path of the log file of the configuration are not empty; the
    key is empty exactly when [PROXY_API_KEY] is unset or set to the empty
    string. *)
Theorem config_defaults_fill_empty_values :
  forall env : gmap string string,
    let cfg := config.NewDefaultConfig env in
    config.AzureOpenAIEndpoint cfg <> ""
    /\ config.ListenAddr cfg <> ""
    /\ config.LogFilePath cfg <> ""
    /\ (config.APIKey cfg = "" <->
        env !! "PROXY_API_KEY" = None \/ env !! "PROXY_API_KEY" = Some "").
Proof.
  intros env cfg. repeat split.
  - intros E. now apply getEnvOrDefault_empty in E.
  - intros E. now apply getEnvOrDefault_empty in E.
  - intros E. now apply getEnvOrDefault_empty in E.
  - subst cfg. cbn. unfold config.getEnvOrDefault.
    destruct (env !! "PROXY_API_KEY") as [val|]; [|now left].
    destruct (String.eqb_spec val ""); cbn; [subst; now right|congruence].
  - subst cfg. cbn. unfold config.getEnvOrDefault.
    intros [->| ->]; reflexivity.
Qed.

(** X2.  The configuration depends on the four variables it names and on
    no other: setting or unsetting any other variable leaves it as it
    is. *)
Theorem config_reads_four_variables :
  forall (env : gmap string string) (name value : string),
    name <> "AZURE_OPENAI_ENDPOINT" ->
    name <> "LISTEN_ADDR" ->
    name <> "LOG_FILE_PATH" ->
    name <> "PROXY_API_KEY" ->
    config.NewDefaultConfig (<[ name := value ]> env) = config.NewDefaultConfig env
    /\ config.NewDefaultConfig (delete name env) = config.NewDefaultConfig env.
Proof.
  intros env name value H1 H2 H3 H4.
  unfold config.NewDefaultConfig, config.getEnvOrDefault.
  now rewrite !lookup_insert_ne, !lookup_delete_ne by congruence.
Qed.

Lemma config_ignores_other_variables :
  config.NewDefaultConfig (<[ "HOME" := "/root" ]> ∅) = config.NewDefaultConfig ∅
  /\ config.NewDefaultConfig (delete "HOME" ∅) = config.NewDefaultConfig ∅.
Proof.
  apply (config_reads_four_variables ∅ "HOME" "/root"); discriminate.
Defined.

(** X3.  A server built with the configured key turns no request away
    when [PROXY_API_KEY] is unset or empty; when it is set to a non-empty
    key, a request is turned away exactly when the first value of its
    [X-API-Key] header differs from that key. *)
Theorem unset_key_disables_authentication :
  forall (L : Type) (H : logging.Logger L)
         (Unmarshal : string -> option Value)
         (transport : http.Request -> http.Response + string)
         (target : url.URL) (env : gmap string string) (r : http.Request),
    let s := proxy.New Unmarshal transport target
               (config.APIKey (config.NewDefaultConfig env)) in
    (env !! "PROXY_API_KEY" = None \/ env !! "PROXY_API_KEY" = Some "" ->
     proxy.unauthorized s r = false)
    /\ (forall key, env !! "PROXY_API_KEY" = Some key -> key <> "" ->
          proxy.unauthorized s r
          = negb (String.eqb (http.Get (http.Header_ r) "X-API-Key") key)).
Proof.
  intros L H U transport target env r s. subst s.
  unfold proxy.unauthorized. cbn. unfold config.getEnvOrDefault. split.
  - intros [->| ->]; reflexivity.
  - intros key -> Hkey. apply String.eqb_neq in Hkey. rewrite Hkey. cbn.
    now rewrite Hkey.
Qed.

Lemma empty_key_variable_admits_everyone :
  proxy.unauthorized
    (proxy.New (L := list logging.Entry) json.Unmarshal upstream_streams azure
       (config.APIKey (config.NewDefaultConfig {[ "PROXY_API_KEY" := "" ]})))
    (chat_request wrong_header say_hello) = false.
Proof.
  apply (proj1 (unset_key_disables_authentication (list logging.Entry) Recorder
                  json.Unmarshal upstream_streams azure {[ "PROXY_API_KEY" := "" ]}
                  (chat_request wrong_header say_hello))).
  right. reflexivity.
Defined.

(** ** The log file *)

Section LogFileFacts.

Variable Marshal : logging.Entry -> string + string.

Local Abbreviation LogRequest := (logging.FileLogger_LogRequest Marshal).

(** One call on a healthy sink writes the line of the entry. *)
Lemma LogRequest_healthy (l : logging.FileLogger) (entry : logging.Entry) :
  healthy l = true ->
  encodable Marshal entry = true ->
  healthy (LogRequest l entry).1 = true
  /\ contents_of (LogRequest l entry).1 = (contents_of l ++ line_of Marshal entry)%string
  /\ (LogRequest l entry).2 = [logged_line entry].
Proof.
  unfold healthy, encodable, contents_of, line_of, logging.FileLogger_LogRequest,
    logging.Encode, logging.File_Write.
  destruct l as [[f|]]; cbn [logging.file]; [|discriminate].
  intros [Hopen Hfault%bool_decide_eq_true]%andb_prop.
  apply negb_true_iff in Hopen.
  destruct (Marshal entry) as [text|]; [intros _|discriminate].
  rewrite Hopen, Hfault. cbn. repeat split.
Qed.

(** One call never takes anything back. *)
Lemma LogRequest_appends (l : logging.FileLogger) (entry : logging.Entry) :
  exists suffix,
    contents_of (LogRequest l entry).1 = (contents_of l ++ suffix)%string.
Proof.
  unfold contents_of, logging.FileLogger_LogRequest, logging.Encode, logging.File_Write.
  destruct l as [[f|]]; cbn [logging.file].
  - destruct (Marshal entry) as [text|]; cbn.
    + destruct (logging.closed f); cbn; [exists ""; now rewrite append_nil_r|].
      destruct (logging.write_fault f); cbn; [exists ""; now rewrite append_nil_r|].
      now eexists.
    + exists "". now rewrite append_nil_r.
  - destruct (Marshal entry); exists ""; reflexivity.
Qed.

(** One call on a closed sink changes nothing. *)
Lemma LogRequest_closed (l : logging.FileLogger) (entry : logging.Entry) :
  closed_sink l = true ->
  LogRequest l entry
  = (l, [encoding_error match Marshal entry with
                        | inl _ => logging.ErrClosed
                        | inr err => err
                        end]).
Proof.
  unfold closed_sink, logging.FileLogger_LogRequest, logging.Encode, logging.File_Write.
  destruct l as [[f|]]; cbn [logging.file]; [|discriminate].
  intros ->. now destruct (Marshal entry).
Qed.

End LogFileFacts.

(** X4.  The log file is append-only: whatever entries are logged, in
    whatever state the sink is, what the file held before is a prefix of
    what it holds after. *)
Theorem log_file_is_append_only :
  forall (Marshal : logging.Entry -> string + string)
         (l : logging.FileLogger) (entries : list logging.Entry),
    exists suffix,
      contents_of (log_all Marshal l entries).1 = (contents_of l ++ suffix)%string.
Proof.
  intros Marshal l entries. revert l.
  induction entries as [|entry entries IH]; intros l; cbn.
  - exists "". now rewrite append_nil_r.
  - destruct (logging.FileLogger_LogRequest Marshal l entry) as [l' printed] eqn:E.
    destruct (LogRequest_appends Marshal l entry) as [s1 H1]. rewrite E in H1. cbn in H1.
    destruct (IH l') as [s2 H2].
    destruct (log_all Marshal l' entries) as [l'' printed']. cbn in *.
    exists (s1 ++ s2)%string. now rewrite H2, H1, append_assoc.
Qed.

(** X5.  On an open file and a working device, entries that the encoder
    accepts are written one line each, in the order of the calls, after
    what the file held; the sink stays healthy and each call prints its
    confirmation. *)
Theorem log_file_holds_one_line_per_entry :
  forall (Marshal : logging.Entry -> string + string)
         (l : logging.FileLogger) (entries : list logging.Entry),
    healthy l = true ->
    forallb (encodable Marshal) entries = true ->
    healthy (log_all Marshal l entries).1 = true
    /\ contents_of (log_all Marshal l entries).1
       = (contents_of l ++ flatten (map (line_of Marshal) entries))%string
    /\ (log_all Marshal l entries).2 = map logged_line entries.
Proof.
  intros Marshal l entries. revert l.
  induction entries as [|entry entries IH]; intros l Hl Henc; cbn.
  - now rewrite append_nil_r.
  - cbn in Henc. apply andb_prop in Henc as [He Hes].
    destruct (LogRequest_healthy Marshal l entry Hl He) as (Hl' & Hc & Hp).
    destruct (logging.FileLogger_LogRequest Marshal l entry) as [l' printed]. cbn in *.
    destruct (IH l' Hl' Hes) as (Hl'' & Hc' & Hp').
    destruct (log_all Marshal l' entries) as [l'' printed']. cbn in *.
    subst. split; [assumption|]. split; [|reflexivity].
    now rewrite Hc', Hc, append_assoc.
Qed.

Lemma two_entries_make_two_lines :
  healthy {| logging.file := Some open_log |} = true
  /\ forallb (encodable one_line) [hello_entry; hello_entry] = true
  /\ contents_of (log_all one_line {| logging.file := Some open_log |}
                    [hello_entry; hello_entry]).1
     = lines ["POST /chat"; "POST /chat"].
Proof.
  split; [reflexivity|]. split; [reflexivity|].
  rewrite (proj1 (proj2 (log_file_holds_one_line_per_entry one_line
                           {| logging.file := Some open_log |}
                           [hello_entry; hello_entry] eq_refl eq_refl))).
  reflexivity.
Defined.

(** X6.  Once the file is closed, every entry logged is lost: the sink
    stays as it is, and each call prints one line with the error. *)
Theorem closed_log_file_loses_entries :
  forall (Marshal : logging.Entry -> string + string)
         (l : logging.FileLogger) (entries : list logging.Entry),
    closed_sink l = true ->
    (log_all Marshal l entries).1 = l
    /\ (log_all Marshal l entries).2
       = map (fun entry => encoding_error match Marshal entry with
                                         | inl _ => logging.ErrClosed
                                         | inr err => err
                                         end) entries.
Proof.
  intros Marshal l entries Hl.
  induction entries as [|entry entries IH]; cbn; [now split|].
  rewrite (LogRequest_closed Marshal l entry Hl).
  destruct (log_all Marshal l entries) as [l' printed]. cbn in *.
  destruct IH as [-> ->]. now split.
Qed.

Lemma logging_after_Close_is_lost :
  let l := (logging.FileLogger_Close {| logging.file := Some open_log |}).1 in
  closed_sink l = true
  /\ (log_all one_line l [hello_entry]).1 = l
  /\ (log_all one_line l [hello_entry]).2 = [encoding_error logging.ErrClosed].
Proof.
  intros l. split; [reflexivity|].
  apply (closed_log_file_loses_entries one_line l [hello_entry]). reflexivity.
Defined.

(** ** Whole exchanges *)

(** X7.  The handler of a server built by [New] always attaches the Call
    Context that the transport asserts, so no assertion of the transport
    fails under it.  It ends in one of two ways: it writes an answer of
    status 401, 500 or 502; or the upstream returned a response, which
    was read in full, and it ends as the forwarding engine's relay of
    that response ends.  So it panics only where that relay does. *)
Theorem handler_always_answers :
  forall (L : Type) (H : logging.Logger L)
         (Unmarshal : string -> option Value)
         (transport : http.Request -> http.Response + string)
         (prepare : http.Request -> http.Request -> http.Header + string)
         (relay : http.Request -> http.Response ->
                  proxy.Result http.Written * list logging.Printf)
         (target : url.URL) (key : string) (r : http.Request)
         (w : proxy.World (L := L)),
    let exchange :=
      proxy.ServeHTTP Unmarshal prepare relay (proxy.New Unmarshal transport target key) r in
    ((exists written,
         outcome exchange w = proxy.Val written
         /\ (http.code written = 401%Z \/ http.code written = 500%Z
             \/ http.code written = 502%Z))
     \/ (exists h resp,
           prepare (handed_over Unmarshal r (proxy.clock w))
             (directed Unmarshal target r (proxy.clock w)) = inl h
           /\ transport (outgoing Unmarshal target r (proxy.clock w) h) = inl resp
           /\ io.read_err (http.RBody resp) = None
           /\ outcome exchange w
              = (relay (outgoing Unmarshal target r (proxy.clock w) h) (captured resp)).1))
    /\ (forall msg,
          outcome exchange w = proxy.Panic msg ->
          exists outreq res, (relay outreq res).1 = proxy.Panic msg).
Proof.
  intros L H U transport prepare relay target key r w exchange. subst exchange.
  unfold outcome.
  destruct (ServeHTTP_cases U transport prepare relay target key r w)
    as [Hauth E|err Hauth Hrd E|err Hauth Hrd Hprep E|h err Hauth Hrd Hprep Hfail E
        |h resp Hauth Hrd Hprep Htr Hrd' E];
    cbv zeta in E; rewrite E; cbn [fst]; (split; [|try discriminate]).
  - left. eexists. split; [reflexivity|]. now left.
  - left. eexists. split; [reflexivity|]. right. now left.
  - left. eexists. split; [reflexivity|]. right. right. reflexivity.
  - left. eexists. split; [reflexivity|]. right. right. reflexivity.
  - right. exists h, resp. repeat split; assumption.
  - intros msg Hmsg. eexists _, _. exact Hmsg.
Qed.

(** X8.  The handler never retries: a request causes at most one call of
    the upstream, with the headers the forwarding engine has prepared,
    and none exactly when it is turned away, its body cannot be read, or
    the forwarding engine refuses it. *)
Theorem handler_never_retries :
  forall (L : Type) (H : logging.Logger L)
         (Unmarshal : string -> option Value)
         (transport : http.Request -> http.Response + string)
         (prepare : http.Request -> http.Request -> http.Header + string)
         (relay : http.Request -> http.Response ->
                  proxy.Result http.Written * list logging.Printf)
         (target : url.URL) (key : string) (r : http.Request)
         (w : proxy.World (L := L)),
    let s := proxy.New Unmarshal transport target key in
    let calls := forwarded (events_of (proxy.ServeHTTP Unmarshal prepare relay s r) w) in
    let prepared := prepare (handed_over Unmarshal r (proxy.clock w))
                      (directed Unmarshal target r (proxy.clock w)) in
    (calls = [] \/
     exists h, prepared = inl h /\ calls = [outgoing Unmarshal target r (proxy.clock w) h])
    /\ (calls = [] <->
        proxy.unauthorized s r = true \/ io.read_err (http.Body r) <> None
        \/ exists err, prepared = inr err).
Proof.
  intros L H U transport prepare relay target key r w s calls prepared.
  subst calls prepared s.
  destruct (ServeHTTP_cases U transport prepare relay target key r w)
    as [Hauth E|err Hauth Hrd E|err Hauth Hrd Hprep E|h err Hauth Hrd Hprep Hfail E
        |h resp Hauth Hrd Hprep Htr Hrd' E];
    cbv zeta in E.
  - rewrite events_of_unchanged by now rewrite E. split; [now left|]. split; auto.
  - rewrite events_of_unchanged by now rewrite E. split; [now left|].
    split; [right; left; congruence|reflexivity].
  - exchange_events E. events. split; [now left|].
    split; [right; right; now exists err|reflexivity].
  - exchange_events E. events. split; [right; now exists h|].
    split; [discriminate|]. intros [?|[?|[? ?]]]; congruence.
  - exchange_events E. events. split; [right; now exists h|].
    split; [discriminate|]. intros [?|[?|[? ?]]]; congruence.
Qed.

(** One entry in a list of events: where it stands. *)
Lemma Emit_position (before after pre post : list proxy.Event)
    (entry entry' : logging.Entry) :
  emitted before = [] ->
  before ++ proxy.Emit entry :: after = pre ++ proxy.Emit entry' :: post ->
  emitted after = [] ->
  pre = before /\ entry' = entry /\ post = after.
Proof.
  revert pre. induction before as [|ev before IH]; intros pre Hb Heq Ha.
  - destruct pre as [|ev' pre].
    + cbn in Heq. now injection Heq as <- <-.
    + cbn in Heq. injection Heq as <- ->.
      rewrite emitted_app in Ha. cbn in Ha.
      now destruct (emitted pre).
  - destruct pre as [|ev' pre].
    + cbn in Heq. injection Heq as -> _. discriminate.
    + cbn in Heq. injection Heq as <- Heq.
      assert (emitted before = []) as Hb' by now destruct ev.
      destruct (IH pre Hb' Heq Ha) as (-> & -> & ->). now split.
Qed.

(** X9.  Wherever an entry stands among the events of an exchange, the
    forwarding engine has accepted the request, the one call of the
    upstream comes before it and nothing is forwarded or
    emitted after it: the record is emitted after the round trip, and at
    most once. *)
Theorem record_follows_the_round_trip :
  forall (L : Type) (H : logging.Logger L)
         (Unmarshal : string -> option Value)
         (transport : http.Request -> http.Response + string)
         (prepare : http.Request -> http.Request -> http.Header + string)
         (relay : http.Request -> http.Response ->
                  proxy.Result http.Written * list logging.Printf)
         (target : url.URL) (key : string) (r : http.Request)
         (w : proxy.World (L := L))
         (pre post : list proxy.Event) (entry : logging.Entry),
    events_of (proxy.ServeHTTP Unmarshal prepare relay
                 (proxy.New Unmarshal transport target key) r) w
    = pre ++ proxy.Emit entry :: post ->
    (exists h,
        prepare (handed_over Unmarshal r (proxy.clock w))
          (directed Unmarshal target r (proxy.clock w)) = inl h
        /\ forwarded pre = [outgoing Unmarshal target r (proxy.clock w) h])
    /\ emitted pre = []
    /\ forwarded post = []
    /\ emitted post = [].
Proof.
  intros L H U transport prepare relay target key r w pre post entry Hev.
  assert (emitted (pre ++ proxy.Emit entry :: post) <> []) as Hne.
  { rewrite emitted_app. cbn. now destruct (emitted pre). }
  rewrite <- Hev in Hne.
  destruct (ServeHTTP_cases U transport prepare relay target key r w)
    as [Hauth E|err Hauth Hrd E|err Hauth Hrd Hprep E|h err Hauth Hrd Hprep Hfail E
        |h resp Hauth Hrd Hprep Htr Hrd' E];
    cbv zeta in E.
  - rewrite events_of_unchanged in Hne by now rewrite E. contradiction.
  - rewrite events_of_unchanged in Hne by now rewrite E. contradiction.
  - exfalso. apply Hne. exchange_events E. events. reflexivity.
  - exfalso. apply Hne. exchange_events E. events. reflexivity.
  - clear Hne. revert Hev. exchange_events E.
    rewrite app_comm_cons, app_assoc. intros Hev.
    apply Emit_position in Hev as (-> & -> & ->).
    + events. split; [now exists h|]. now repeat split.
    + events. reflexivity.
    + events. reflexivity.
Qed.

Lemma record_of_a_chat_request :
  let r := chat_request secret_header say_hello in
  exists pre post entry,
    events_of (proxy.ServeHTTP json.Unmarshal plain_prepare plain_relay
                 (proxy.New (L := list logging.Entry) json.Unmarshal upstream_streams
                    azure "secret") r) (start [])
    = pre ++ proxy.Emit entry :: post
    /\ exists h,
         plain_prepare (handed_over json.Unmarshal r 0) (directed json.Unmarshal azure r 0)
         = inl h
         /\ forwarded pre = [outgoing json.Unmarshal azure r 0 h].
Proof.
  intros r.
  pose (outreq := outgoing json.Unmarshal azure r 0
                    (http.Header_ (directed json.Unmarshal azure r 0))).
  exists [proxy.Upstream outreq], [],
    (entry_of json.Unmarshal outreq stream_response
       "/openai/deployments/gpt-4o/chat/completions" "POST" 0 1).
  assert (events_of (proxy.ServeHTTP json.Unmarshal plain_prepare plain_relay
                 (proxy.New (L := list logging.Entry) json.Unmarshal upstream_streams
                    azure "secret") r) (start [])
          = [proxy.Upstream outreq]
            ++ proxy.Emit (entry_of json.Unmarshal outreq stream_response
                             "/openai/deployments/gpt-4o/chat/completions" "POST" 0 1)
            :: []) as Hev by (vm_compute; reflexivity).
  split; [exact Hev|].
  exact (proj1 (record_follows_the_round_trip (list logging.Entry) Recorder json.Unmarshal
                  upstream_streams plain_prepare plain_relay azure "secret" r
                  (start []) _ _ _ Hev)).
Defined.

(** X10.  The entry of an exchange carries the method and the path of the
    inbound request, and its body parsed, or as text when it does not
    parse; the path is the inbound one even though the request that goes
    upstream has the path of the target joined in front. *)
Theorem record_describes_the_inbound_request :
  forall (L : Type) (H : logging.Logger L)
         (Unmarshal : string -> option Value)
         (transport : http.Request -> http.Response + string)
         (prepare : http.Request -> http.Request -> http.Header + string)
         (relay : http.Request -> http.Response ->
                  proxy.Result http.Written * list logging.Printf)
         (target : url.URL) (key : string) (r : http.Request)
         (w : proxy.World (L := L)) (entry : logging.Entry),
    emitted (events_of (proxy.ServeHTTP Unmarshal prepare relay
                          (proxy.New Unmarshal transport target key) r) w) = [entry] ->
    logging.Method entry = http.Method r
    /\ logging.Path entry = url.Path (http.URL r)
    /\ logging.RequestBody entry
       = match Unmarshal (io.data (http.Body r)) with
         | Some requestBody => requestBody
         | None => VString (io.data (http.Body r))
         end
    /\ (forall h,
          url.Path (http.URL (outgoing Unmarshal target r (proxy.clock w) h))
          = proxy.singleJoiningSlash (url.Path target) (url.Path (http.URL r))).
Proof.
  intros L H U transport prepare relay target key r w entry.
  destruct (ServeHTTP_cases U transport prepare relay target key r w)
    as [Hauth E|err Hauth Hrd E|err Hauth Hrd Hprep E|h err Hauth Hrd Hprep Hfail E
        |h resp Hauth Hrd Hprep Htr Hrd' E];
    cbv zeta in E.
  - rewrite events_of_unchanged by now rewrite E. discriminate.
  - rewrite events_of_unchanged by now rewrite E. discriminate.
  - exchange_events E. events. discriminate.
  - exchange_events E. events. discriminate.
  - exchange_events E. events. intros [= <-]. cbn. repeat split.
Qed.

Lemma record_of_a_prefixed_target :
  let target := {| url.Scheme := "https"; url.Host := "gateway.example.com";
                   url.Path := "/azure"; url.RawQuery := "" |} in
  let r := chat_request ∅ say_hello in
  let outreq := outgoing json.Unmarshal target r 0
                  (http.Header_ (directed json.Unmarshal target r 0)) in
  let entry := entry_of json.Unmarshal outreq
                 stream_response "/openai/deployments/gpt-4o/chat/completions" "POST" 0 1 in
  emitted (events_of (proxy.ServeHTTP json.Unmarshal plain_prepare plain_relay
                        (proxy.New (L := list logging.Entry) json.Unmarshal
                           upstream_streams target "") r) (start [])) = [entry]
  /\ logging.Path entry = "/openai/deployments/gpt-4o/chat/completions"
  /\ url.Path (http.URL outreq) = "/azure/openai/deployments/gpt-4o/chat/completions".
Proof.
  intros target r outreq entry.
  assert (emitted (events_of (proxy.ServeHTTP json.Unmarshal plain_prepare plain_relay
                        (proxy.New (L := list logging.Entry) json.Unmarshal
                           upstream_streams target "") r) (start [])) = [entry]) as Hem
    by (vm_compute; reflexivity).
  split; [exact Hem|].
  destruct (record_describes_the_inbound_request (list logging.Entry) Recorder
              json.Unmarshal upstream_streams plain_prepare plain_relay target "" r
              (start []) entry Hem)
    as (_ & Hpath & _ & Hout).
  split; [exact Hpath|]. etransitivity; [exact (Hout _)|reflexivity].
Defined.

(** ** The log file behind the proxy *)

Lemma LogRequest_contents (Marshal : logging.Entry -> string + string)
    (l : logging.FileLogger) (entry : logging.Entry) :
  contents_of (logging.FileLogger_LogRequest Marshal l entry).1
  = (contents_of l ++ if healthy l then line_of Marshal entry else "")%string.
Proof.
  unfold contents_of, healthy, line_of, logging.FileLogger_LogRequest, logging.Encode,
    logging.File_Write.
  destruct l as [[f|]]; cbn [logging.file].
  - destruct (Marshal entry) as [text|]; cbn.
    + destruct (logging.closed f); cbn; [now rewrite append_nil_r|].
      destruct (logging.write_fault f); cbn; [now rewrite append_nil_r|].
      reflexivity.
    + destruct (_ && _); now rewrite append_nil_r.
  - now destruct (Marshal entry).
Qed.

Lemma ServeHTTP_contents :
  forall (Marshal : logging.Entry -> string + string)
         (Unmarshal : string -> option Value)
         (transport : http.Request -> http.Response + string)
         (prepare : http.Request -> http.Request -> http.Header + string)
         (relay : http.Request -> http.Response ->
                  proxy.Result http.Written * list logging.Printf)
         (target : url.URL) (key : string) (r : http.Request)
         (w : proxy.World (L := logging.FileLogger)),
    let s := proxy.New (H := logging.FileLogger_Logger Marshal) Unmarshal transport
               target key in
    contents_of (proxy.sink (proxy.ServeHTTP Unmarshal prepare relay s r w).2)
    = (contents_of (proxy.sink w)
       ++ if healthy (proxy.sink w)
          then flatten (map (line_of Marshal)
                          (emitted (events_of (proxy.ServeHTTP Unmarshal prepare relay s r)
                                      w)))
          else "")%string.
Proof.
  intros Marshal U transport prepare relay target key r w s. subst s.
  destruct (ServeHTTP_cases (H := logging.FileLogger_Logger Marshal)
              U transport prepare relay target key r w)
    as [Hauth E|err Hauth Hrd E|err Hauth Hrd Hprep E|h err Hauth Hrd Hprep Hfail E
        |h resp Hauth Hrd Hprep Htr Hrd' E];
    cbv zeta in E.
  - rewrite events_of_unchanged by now rewrite E. rewrite E. cbn.
    destruct (healthy _); now rewrite append_nil_r.
  - rewrite events_of_unchanged by now rewrite E. rewrite E. cbn.
    destruct (healthy _); now rewrite append_nil_r.
  - exchange_events E. rewrite E. events.
    destruct (healthy _); now rewrite append_nil_r.
  - exchange_events E. rewrite E. events.
    destruct (healthy _); now rewrite append_nil_r.
  - exchange_events E. rewrite E. events.
    cbn [logging.LogRequest logging.FileLogger_Logger].
    rewrite LogRequest_contents.
    destruct (healthy _); cbn; now rewrite ?append_nil_r.
Qed.

(** ** More on streams *)

Lemma flatten_data_lines (Unmarshal : string -> option Value) (ls : list string) :
  flatten (map (line_content Unmarshal) (data_lines ls))
  = flatten (map (line_content Unmarshal) ls).
Proof.
  unfold data_lines, flatten.
  induction ls as [|l ls IH]; [reflexivity|]. cbn [List.filter map fold_right].
  destruct (strings.HasPrefix l "data: ") eqn:E; cbn [map fold_right]; rewrite IH;
    [reflexivity|].
  unfold line_content. now rewrite E.
Qed.

(** X12.  Lines that do not begin with [data: ] have no part in the
    reconstruction: the payload is the one of the data lines alone. *)
Theorem other_lines_are_ignored :
  forall (Unmarshal : string -> option Value) (responseText : string),
    processStreamingResponse Unmarshal responseText
    = reconstructed
        (accumulate Unmarshal (data_lines (strings.Split responseText newline)) "").
Proof.
  intros U s. rewrite processStreamingResponse_flatten, accumulate_flatten.
  now rewrite flatten_data_lines.
Qed.

Lemma Split_join (a b : string) (sep : ascii) :
  strings.Split (a ++ String sep b)%string sep
  = strings.Split a sep ++ strings.Split b sep.
Proof.
  induction a as [|c a IH].
  - change ("" ++ String sep b)%string with (String sep b).
    cbn [strings.Split]. now rewrite Ascii.eqb_refl.
  - rewrite append_cons. cbn [strings.Split]. rewrite IH.
    destruct (Ascii.eqb c sep); [reflexivity|].
    destruct (strings.Split a sep) as [|piece rest] eqn:E; [|reflexivity].
    now destruct (Split_nonempty a sep).
Qed.

(** X13.  The reconstruction of two streams joined by a newline has the
    content of the first followed by the content of the second. *)
Theorem streams_concatenate :
  forall (Unmarshal : string -> option Value) (first second : string),
    processStreamingResponse Unmarshal (first ++ String newline second)%string
    = reconstructed
        (accumulate Unmarshal (strings.Split first newline) ""
         ++ accumulate Unmarshal (strings.Split second newline) "")%string.
Proof.
  intros U a b. unfold processStreamingResponse.
  rewrite Split_join, !accumulate_flatten, map_app, flatten_app. reflexivity.
Qed.

(** ** Start-up *)

(** X14.  [Run] prints two lines and hands the server to the listener,
    whose result it returns; the second line says that authentication is
    enabled exactly when some request is turned away, and warns that the
    proxy is open exactly when none is. *)
Theorem Run_announces_authentication :
  forall (URL_String : url.URL -> string)
         (ListenAndServe : string -> proxy.Server (L := logging.FileLogger) ->
                           proxy.M (L := logging.FileLogger) (option string))
         (s : proxy.Server) (listenAddr : string) (w : proxy.World),
  exists text,
    cmd.Run URL_String ListenAndServe s listenAddr w
    = ListenAndServe listenAddr s
        (with_events w [starting listenAddr (URL_String (proxy.targetURL s)); notice text])
    /\ (text = "API key authentication enabled"
        \/ text = "Warning: API key authentication disabled, proxy is open to all requests")
    /\ (text = "API key authentication enabled" <->
        exists r, proxy.unauthorized s r = true)
    /\ (text = "Warning: API key authentication disabled, proxy is open to all requests" <->
        forall r, proxy.unauthorized s r = false).
Proof.
  intros URL_String LAS s addr w. unfold cmd.Run, proxy.unauthorized.
  assert (http.Get (http.Header_ no_key_header) "X-API-Key" = "") as Hget
    by (vm_compute; reflexivity).
  destruct (String.eqb_spec (proxy.apiKey s) "") as [E|E]; cbn [negb].
  - eexists. split.
    + run. unfold with_events. cbn. rewrite <- app_assoc. reflexivity.
    + split; [now right|]. split; [|now split].
      split; [discriminate|]. now intros [r Hr].
  - eexists. split.
    + run. unfold with_events. cbn. rewrite <- app_assoc. reflexivity.
    + split; [now left|]. split.
      * split; [intros _|reflexivity]. exists no_key_header. rewrite Hget.
        apply negb_true_iff, String.eqb_neq. congruence.
      * split; [discriminate|]. intros Hall. specialize (Hall no_key_header).
        rewrite Hget in Hall. apply negb_false_iff, String.eqb_eq in Hall. congruence.
Qed.


(** ** Sequences of exchanges *)

Lemma LogRequest_healthy_kept (Marshal : logging.Entry -> string + string)
    (l : logging.FileLogger) (entry : logging.Entry) :
  healthy (logging.FileLogger_LogRequest Marshal l entry).1 = healthy l.
Proof.
  unfold healthy, logging.FileLogger_LogRequest, logging.Encode, logging.File_Write.
  destruct l as [[f|]]; cbn [logging.file].
  - destruct (Marshal entry) as [text|]; cbn; [|reflexivity].
    destruct (logging.closed f) eqn:Ec; cbn; [now rewrite Ec|].
    destruct (logging.write_fault f) eqn:Ef; cbn; rewrite ?Ec, ?Ef; reflexivity.
  - now destruct (Marshal entry).
Qed.

(** The server adds to what the handler leaves at most the line of a
    panic, and never panics itself. *)
Lemma serve_conn_run {L : Type}
    (handler : http.Request -> proxy.M (L := L) http.Written)
    (r : http.Request) (w : proxy.World (L := L)) :
  exists served extra,
    serve_conn handler r w = (proxy.Val served, with_events (handler r w).2 extra)
    /\ emitted extra = [] /\ forwarded extra = [].
Proof.
  unfold serve_conn.
  destruct (handler r w) as [[written|msg] w']; cbn [snd].
  - exists (Answered written), []. unfold with_events. rewrite app_nil_r.
    now destruct w'.
  - destruct (String.eqb msg ErrAbortHandler).
    + exists Dropped, []. unfold with_events. rewrite app_nil_r. now destruct w'.
    + now exists Dropped, [panic_line msg].
Qed.

Section SequenceFacts.

Variable Marshal : logging.Entry -> string + string.
Variable Unmarshal : string -> option Value.
Variable transport : http.Request -> http.Response + string.
Variable prepare : http.Request -> http.Request -> http.Header + string.
Variable relay :
  http.Request -> http.Response -> proxy.Result http.Written * list logging.Printf.

Local Abbreviation World := (proxy.World (L := logging.FileLogger)).
Local Abbreviation server target key :=
  (proxy.New (H := logging.FileLogger_Logger Marshal) Unmarshal transport target key).
Local Abbreviation ServeHTTP := (proxy.ServeHTTP Unmarshal prepare relay).
Local Abbreviation serve_all' := (serve_all Unmarshal prepare relay).

(** An exchange adds its events to the trace and keeps the health of the
    sink. *)
Lemma ServeHTTP_extends (target : url.URL) (key : string) (r : http.Request) (w : World) :
  let w' := (ServeHTTP (server target key) r w).2 in
  proxy.trace w'
  = proxy.trace w ++ events_of (ServeHTTP (server target key) r) w
  /\ healthy (proxy.sink w') = healthy (proxy.sink w).
Proof.
  cbv zeta.
  destruct (ServeHTTP_cases (H := logging.FileLogger_Logger Marshal)
              Unmarshal transport prepare relay target key r w)
    as [Hauth E|err Hauth Hrd E|err Hauth Hrd Hprep E|h err Hauth Hrd Hprep Hfail E
        |h resp Hauth Hrd Hprep Htr Hrd' E];
    cbv zeta in E.
  - rewrite events_of_unchanged by now rewrite E. rewrite E. cbn.
    now rewrite app_nil_r.
  - rewrite events_of_unchanged by now rewrite E. rewrite E. cbn.
    now rewrite app_nil_r.
  - exchange_events E. rewrite E. now cbn.
  - exchange_events E. rewrite E. now cbn.
  - exchange_events E. rewrite E. cbn [snd proxy.trace proxy.sink]. split; [reflexivity|].
    apply LogRequest_healthy_kept.
Qed.

(** So does an exchange under the server. *)
Lemma serve_conn_extends (target : url.URL) (key : string) (r : http.Request) (w : World) :
  let exchange := serve_conn (ServeHTTP (server target key)) r in
  exists served,
    (exchange w).1 = proxy.Val served
    /\ proxy.trace (exchange w).2 = proxy.trace w ++ events_of exchange w
    /\ emitted (events_of exchange w)
       = emitted (events_of (ServeHTTP (server target key) r) w)
    /\ proxy.sink (exchange w).2 = proxy.sink (ServeHTTP (server target key) r w).2.
Proof.
  cbv zeta.
  destruct (serve_conn_run (ServeHTTP (server target key)) r w)
    as (served & extra & E & Hem & Hfw).
  destruct (ServeHTTP_extends target key r w) as [Ht _]. cbv zeta in Ht.
  assert (proxy.trace (serve_conn (ServeHTTP (server target key)) r w).2
          = proxy.trace w
            ++ (events_of (ServeHTTP (server target key) r) w ++ extra)) as Htrace.
  { rewrite E. cbn. rewrite Ht. now rewrite app_assoc. }
  exists served. split; [now rewrite E|]. split; [|split].
  - rewrite (events_of_trace _ _ _ Htrace). exact Htrace.
  - rewrite (events_of_trace _ _ _ Htrace). rewrite emitted_app, Hem. now rewrite app_nil_r.
  - now rewrite E.
Qed.

Lemma serve_all_extends (target : url.URL) (key : string)
    (requests : list http.Request) (w : World) :
  let w' := (serve_all' (server target key) requests w).2 in
  proxy.trace w'
  = proxy.trace w ++ events_of (serve_all' (server target key) requests) w
  /\ contents_of (proxy.sink w')
     = (contents_of (proxy.sink w)
        ++ if healthy (proxy.sink w)
           then flatten (map (line_of Marshal)
                  (emitted (events_of (serve_all' (server target key) requests) w)))
           else "")%string.
Proof.
  cbv zeta. revert w. induction requests as [|r requests IH]; intros w.
  - cbn [serve_all]. rewrite events_of_unchanged by reflexivity. cbn.
    rewrite app_nil_r. split; [reflexivity|].
    destruct (healthy _); now rewrite append_nil_r.
  - cbn [serve_all].
    pose proof (ServeHTTP_extends target key r w) as [_ Hh]. cbv zeta in Hh.
    pose proof (ServeHTTP_contents Marshal Unmarshal transport prepare relay target key r w)
      as Hc. cbv zeta in Hc.
    destruct (serve_conn_extends target key r w) as (served & Hout & Ht & Hem & Hs).
    cbv zeta in Hout, Ht, Hem, Hs. rewrite <- Hs in Hc, Hh. rewrite <- Hem in Hc.
    destruct (serve_conn (ServeHTTP (server target key)) r w) as [res w1] eqn:E1.
    cbn [fst snd] in *. subst res.
    specialize (IH w1) as [IHt IHc].
    assert ((serve_conn (ServeHTTP (server target key)) r;;
             serve_all' (server target key) requests) w
            = serve_all' (server target key) requests w1) as Estep.
    { unfold mbind, proxy.M_bind at 1. now rewrite E1. }
    assert (events_of (serve_conn (ServeHTTP (server target key)) r;;
                       serve_all' (server target key) requests) w
            = events_of (serve_conn (ServeHTTP (server target key)) r) w
              ++ events_of (serve_all' (server target key) requests) w1) as Eev.
    { apply events_of_trace. rewrite Estep, IHt, Ht. now rewrite app_assoc. }
    rewrite Eev, Estep. split.
    + rewrite IHt, Ht. now rewrite app_assoc.
    + rewrite IHc, Hc, Hh. destruct (healthy (proxy.sink w)).
      * now rewrite emitted_app, map_app, flatten_app, append_assoc.
      * now rewrite !append_nil_r.
Qed.

End SequenceFacts.

(** X11.  Behind a [FileLogger], an exchange leaves in the file what it
    held followed, when the sink is healthy, by the line of the entry it
    emitted if it emitted one, and nothing else; the health of the sink is
    as before. *)
Theorem exchange_appends_its_line :
  forall (Marshal : logging.Entry -> string + string)
         (Unmarshal : string -> option Value)
         (transport : http.Request -> http.Response + string)
         (prepare : http.Request -> http.Request -> http.Header + string)
         (relay : http.Request -> http.Response ->
                  proxy.Result http.Written * list logging.Printf)
         (target : url.URL) (key : string) (r : http.Request)
         (w : proxy.World (L := logging.FileLogger)),
    let s := proxy.New (H := logging.FileLogger_Logger Marshal) Unmarshal transport
               target key in
    let exchange := proxy.ServeHTTP Unmarshal prepare relay s r in
    contents_of (proxy.sink (exchange w).2)
    = (contents_of (proxy.sink w)
       ++ if healthy (proxy.sink w)
          then flatten (map (line_of Marshal) (emitted (events_of exchange w)))
          else "")%string
    /\ healthy (proxy.sink (exchange w).2) = healthy (proxy.sink w).
Proof.
  intros Marshal U transport prepare relay target key r w s exchange. split.
  - apply ServeHTTP_contents.
  - apply ServeHTTP_extends.
Qed.


(** X15.  After any sequence of requests served one after the other,
    under the server that recovers the panics of the handler, behind a
    healthy [FileLogger], the file holds what it held followed by
    the lines of the entries emitted, in the order of emission. *)
Theorem log_after_many_exchanges :
  forall (Marshal : logging.Entry -> string + string)
         (Unmarshal : string -> option Value)
         (transport : http.Request -> http.Response + string)
         (prepare : http.Request -> http.Request -> http.Header + string)
         (relay : http.Request -> http.Response ->
                  proxy.Result http.Written * list logging.Printf)
         (target : url.URL) (key : string) (requests : list http.Request)
         (w : proxy.World (L := logging.FileLogger)),
    let s := proxy.New (H := logging.FileLogger_Logger Marshal) Unmarshal transport
               target key in
    healthy (proxy.sink w) = true ->
    contents_of (proxy.sink (serve_all Unmarshal prepare relay s requests w).2)
    = (contents_of (proxy.sink w)
       ++ flatten (map (line_of Marshal)
                     (emitted (events_of (serve_all Unmarshal prepare relay s requests)
                                 w))))%string.
Proof.
  intros Marshal U transport prepare relay target key requests w s Hh.
  destruct (serve_all_extends Marshal U transport prepare relay target key requests w)
    as [_ Hc].
  cbv zeta in Hc. now rewrite Hh in Hc.
Qed.

Lemma log_after_two_chat_requests :
  let w := start {| logging.file := Some open_log |} in
  let s := proxy.New (H := logging.FileLogger_Logger one_line) json.Unmarshal
             upstream_streams azure "" in
  let requests := [chat_request ∅ say_hello; chat_request ∅ broken_body;
                   chat_request ∅ say_hello] in
  healthy (proxy.sink w) = true
  /\ contents_of (proxy.sink (serve_all json.Unmarshal plain_prepare plain_relay s
                                requests w).2)
     = lines ["POST /openai/deployments/gpt-4o/chat/completions";
              "POST /openai/deployments/gpt-4o/chat/completions"].
Proof.
  intros w s requests. split; [reflexivity|].
  etransitivity;
    [exact (log_after_many_exchanges one_line json.Unmarshal upstream_streams
              plain_prepare plain_relay azure "" requests w eq_refl)|].
  vm_compute. reflexivity.
Defined.

(** ** Start-up and shutdown *)

Section RunFacts.

Variable Unmarshal : string -> option Value.
Variable Marshal : logging.Entry -> string + string.
Variable transport : http.Request -> http.Response + string.
Variable Parse : string -> url.URL + string.
Variable URL_String : url.URL -> string.
Variable ListenAndServe :
  string -> proxy.Server (L := logging.FileLogger) ->
  proxy.M (L := logging.FileLogger) (option string).

Local Abbreviation run :=
  (cmd.run Unmarshal Marshal transport Parse URL_String ListenAndServe).

(** After [Close] a sink that has a file has it closed. *)
Lemma Close_closes (l : logging.FileLogger) (f : logging.File) :
  logging.file (logging.FileLogger_Close l).1 = Some f -> logging.closed f = true.
Proof.
  unfold logging.FileLogger_Close, logging.File_Close.
  destruct l as [[f0|]]; cbn [logging.file]; [|discriminate].
  destruct (logging.closed f0) eqn:E; cbn; intros [= <-]; [exact E|reflexivity].
Qed.

(** When the log file opens, [run] ends by closing the sink that the
    rest of it leaves. *)
Lemma run_world (env : gmap string string) (old : string) (now : Z) :
  exists w w',
    (run env (Some old) now).2 = Some w'
    /\ proxy.sink w' = (logging.FileLogger_Close (proxy.sink w)).1.
Proof.
  unfold cmd.run. cbn [logging.NewFileLogger logging.OpenFile].
  destruct (cmd.serve _ _ _ _ _ _ _ _) as [result w] eqn:E.
  destruct (logging.FileLogger_Close (proxy.sink w)) as [l' printed] eqn:Ec.
  exists w. eexists. split; [reflexivity|]. cbn. now rewrite Ec.
Qed.

End RunFacts.

(** X17.  Whenever the log file could be opened, [run] returns with it
    closed, whatever the listener did: the deferred [Close] runs on every
    way out. *)
Theorem run_closes_the_log_file :
  forall (Unmarshal : string -> option Value)
         (Marshal : logging.Entry -> string + string)
         (transport : http.Request -> http.Response + string)
         (Parse : string -> url.URL + string)
         (URL_String : url.URL -> string)
         (ListenAndServe : string -> proxy.Server (L := logging.FileLogger) ->
                           proxy.M (L := logging.FileLogger) (option string))
         (env : gmap string string) (old : string) (now : Z),
  exists w,
    (cmd.run Unmarshal Marshal transport Parse URL_String ListenAndServe
       env (Some old) now).2 = Some w
    /\ (closed_sink (proxy.sink w) = true \/ logging.file (proxy.sink w) = None).
Proof.
  intros.
  destruct (run_world Unmarshal Marshal transport Parse URL_String ListenAndServe
              env old now) as (w0 & w' & Hw & Hs).
  exists w'. split; [exact Hw|].
  destruct (logging.file (proxy.sink w')) as [f|] eqn:Ef; [left|now right].
  unfold closed_sink. rewrite Ef.
  rewrite Hs in Ef. exact (Close_closes _ _ Ef).
Qed.


(** X16.  [main] exits with status 1 and the error of the stage that
    failed: the log file that cannot be opened, the endpoint that does not
    parse, the listener that returns an error; it exits with 0 only when
    the listener returns without one.  The listener is started with the
    configured address and key, after three lines are printed. *)
Theorem main_exit_status :
  forall (Unmarshal : string -> option Value)
         (Marshal : logging.Entry -> string + string)
         (transport : http.Request -> http.Response + string)
         (Parse : string -> url.URL + string)
         (URL_String : url.URL -> string)
         (ListenAndServe : string -> proxy.Server (L := logging.FileLogger) ->
                           proxy.M (L := logging.FileLogger) (option string))
         (env : gmap string string) (existing : option string) (now : Z),
    let cfg := config.NewDefaultConfig env in
    let main := cmd.main Unmarshal Marshal transport Parse URL_String ListenAndServe
                  env existing now in
    (existing = None ->
     main = (1%Z, Some ("failed to create logger: open " ++ config.LogFilePath cfg)%string))
    /\ (forall old err,
          existing = Some old ->
          Parse (config.AzureOpenAIEndpoint cfg) = inr err ->
          main = (1%Z, Some ("failed to parse target URL: " ++ err)%string))
    /\ (forall old target,
          existing = Some old ->
          Parse (config.AzureOpenAIEndpoint cfg) = inl target ->
          main = match (ListenAndServe (config.ListenAddr cfg)
                          (proxy.New (H := logging.FileLogger_Logger Marshal) Unmarshal
                             transport target (config.APIKey cfg))
                          (listening URL_String cfg target old now)).1 with
                 | proxy.Val None => (0%Z, None)
                 | proxy.Val (Some err) => (1%Z, Some ("server error: " ++ err)%string)
                 | proxy.Panic _ => (2%Z, None)
                 end).
Proof.
  intros U Marshal transport Parse URL_String LAS env existing now cfg main.
  subst main. unfold cmd.main, cmd.run. fold cfg. split; [|split].
  - now intros ->.
  - intros old err -> Hparse. cbn [logging.NewFileLogger logging.OpenFile].
    unfold cmd.serve. rewrite Hparse. reflexivity.
  - intros old target -> Hparse. cbn [logging.NewFileLogger logging.OpenFile].
    unfold cmd.serve, cmd.Run. rewrite Hparse.
    unfold listening, starting, notice. subst cfg. run.
    destruct (String.eqb (config.getEnvOrDefault env "PROXY_API_KEY" "") ""); cbn;
      destruct (LAS _ _ _) as [[[err|]|msg] w']; cbn;
      now destruct (logging.FileLogger_Close _).
Qed.

Lemma main_after_one_request :
  cmd.main json.Unmarshal one_line upstream_streams path_only show_path
    (serve_once (chat_request ∅ say_hello)) ∅ (Some "") 0
  = (1%Z, Some "server error: http: Server closed").
Proof.
  etransitivity;
    [exact (proj2 (proj2 (main_exit_status json.Unmarshal one_line upstream_streams
              path_only show_path (serve_once (chat_request ∅ say_hello)) ∅ (Some "") 0))
              "" _ eq_refl eq_refl)|].
  vm_compute. reflexivity.
Defined.

(** X18.  When the endpoint does not parse, [run] returns with the log
    file closed and holding what it held, and with nothing printed: the
    server is never started. *)
Theorem unparsable_endpoint_leaves_the_log :
  forall (Unmarshal : string -> option Value)
         (Marshal : logging.Entry -> string + string)
         (transport : http.Request -> http.Response + string)
         (Parse : string -> url.URL + string)
         (URL_String : url.URL -> string)
         (ListenAndServe : string -> proxy.Server (L := logging.FileLogger) ->
                           proxy.M (L := logging.FileLogger) (option string))
         (env : gmap string string) (old : string) (now : Z) (err : string),
    let cfg := config.NewDefaultConfig env in
    Parse (config.AzureOpenAIEndpoint cfg) = inr err ->
    (cmd.run Unmarshal Marshal transport Parse URL_String ListenAndServe
       env (Some old) now).2
    = Some {| proxy.sink := {| logging.file :=
                                 Some {| logging.name := config.LogFilePath cfg;
                                         logging.closed := true;
                                         logging.contents := old;
                                         logging.write_fault := None |} |};
              proxy.trace := [];
              proxy.clock := now |}.
Proof.
  intros U Marshal transport Parse URL_String LAS env old now err cfg Hparse.
  unfold cmd.run. fold cfg. cbn [logging.NewFileLogger logging.OpenFile].
  unfold cmd.serve. rewrite Hparse. reflexivity.
Qed.

Lemma unparsable_endpoint_keeps_old_entries :
  (cmd.run json.Unmarshal one_line upstream_streams unparsable show_path
     (serve_once (chat_request ∅ say_hello)) ∅ (Some "old") 0).2
  = Some {| proxy.sink := {| logging.file :=
                               Some {| logging.name := "openai_proxy.json";
                                       logging.closed := true;
                                       logging.contents := "old";
                                       logging.write_fault := None |} |};
            proxy.trace := [];
            proxy.clock := 0 |}.
Proof.
  exact (unparsable_endpoint_leaves_the_log json.Unmarshal one_line upstream_streams
           unparsable show_path (serve_once (chat_request ∅ say_hello)) ∅ "old" 0
           "net/url: invalid control character in URL" eq_refl).
Defined.
